(** * Redeem-code engine of the storefront: storage methods and HTTP handlers

    Shallow embedding of
    - [MemStorage]'s redeem-code methods (shared/schema.ts, storage part), and
    - the routes [POST /api/admin/redeem-codes], [PUT /api/admin/redeem-codes/:id],
      [DELETE /api/admin/redeem-codes/:id] and [POST /api/redeem] (server routes),
    followed by the cart and order methods and routes, and by the admin
    login, its lock-out and the admin gate.

    Conventions of the model.
    - A [string] stands for a JavaScript string, an ASCII character for
      itself.  What [String.prototype.toUpperCase], the [trim] sanitizer
      and the length counted by [isLength] do is fixed on ASCII text only:
      the three operations are the fields of the class [JsStrings], whose
      laws give their values on ASCII text and nothing beyond it (Unicode
      white space, case mappings and surrogate pairs are left open).  The
      general statements hold for every instance of the class; the closed
      examples are computed on ASCII text with the instance
      [ascii_strings].
    - A JavaScript number that is an integer is held as a [Z]; the numbers
      JavaScript has are the IEEE-754 doubles ([JsNumber.is_double]), and
      [JsNumber.js_add] is the addition of two of them, rounded to the
      nearest double as [+] and [+=] do.  Fractions, [NaN] and the
      infinities are outside the model; with the addends the routes use
      (1, and a quantity of at most 999) the sum of finite doubles is
      finite.  The counters of the login (failed attempts of an account,
      attempts of an address) start at 0 and are only ever raised by one,
      far below 2^53, and are added exactly.  Instants (milliseconds since
      the epoch, the value of a [Date]) are [Z].
    - [null] and [undefined] are [None].
    - The [Map<string, RedeemCode>] of [MemStorage] is an association list in
      insertion order, which is the order [Map.prototype.values] iterates in.
    - Every handler of the redeem-code, cart and order routes only awaits
      promises that [MemStorage] has already resolved, so a handler body
      runs without interleaving with another request; handlers are
      therefore functions from a store to a response and a store.  The
      login callback also awaits the password comparison; it is modelled
      as served without another request in between. *)

From Stdlib Require Import Bool List String Ascii ZArith Lia.
Import ListNotations.

Local Open Scope string_scope.
Local Open Scope Z_scope.

(** ** JavaScript strings *)

Module JsString.

Definition is_lower (c : ascii) : bool :=
  let n := nat_of_ascii c in (97 <=? n)%nat && (n <=? 122)%nat.

Definition upper_char (c : ascii) : ascii :=
  if is_lower c then ascii_of_nat (nat_of_ascii c - 32) else c.

(** [String.prototype.toUpperCase] on ASCII text: the letters a..z are
    mapped to A..Z *)
Fixpoint ascii_toUpperCase (s : string) : string :=
  match s with
  | EmptyString => EmptyString
  | String c s' => String (upper_char c) (ascii_toUpperCase s')
  end.

(** the ASCII characters of the class [\s]: TAB, LF, VT, FF, CR and the
    space *)
Definition is_space (c : ascii) : bool :=
  let n := nat_of_ascii c in ((9 <=? n)%nat && (n <=? 13)%nat) || (n =? 32)%nat.

Fixpoint ltrim (s : string) : string :=
  match s with
  | EmptyString => EmptyString
  | String c s' => if is_space c then ltrim s' else s
  end.

Fixpoint rtrim (s : string) : string :=
  match s with
  | EmptyString => EmptyString
  | String c s' =>
      match rtrim s' with
      | EmptyString => if is_space c then EmptyString else String c EmptyString
      | r => String c r
      end
  end.

(** the [trim] sanitizer of the validation chain, [rtrim(ltrim(str))], on
    ASCII text *)
Definition ascii_trim (s : string) : string := rtrim (ltrim s).

Definition is_ascii_char (c : ascii) : bool := (nat_of_ascii c <? 128)%nat.

(** Text made of ASCII characters only. *)
Fixpoint is_ascii (s : string) : bool :=
  match s with
  | EmptyString => true
  | String c s' => is_ascii_char c && is_ascii s'
  end.

(** The string operations the routes call.  Their laws fix them on ASCII
    text; on other text they are whatever JavaScript and the validator
    compute ([toUpperCase] follows the Unicode case mappings, [trim] strips
    every character of [\s], U+00A0 and U+2003 among them, and [isLength]
    counts a surrogate pair once).
    - [toUpperCase]: [String.prototype.toUpperCase];
    - [trim]: the [trim()] sanitizer of a validation chain;
    - [charCount]: the length that [isLength] compares with its bounds. *)
Class JsStrings := {
  toUpperCase : string -> string;
  trim : string -> string;
  charCount : string -> nat;
  toUpperCase_ascii :
    forall s, is_ascii s = true -> toUpperCase s = ascii_toUpperCase s;
  trim_ascii : forall s, is_ascii s = true -> trim s = ascii_trim s;
  charCount_ascii :
    forall s, is_ascii s = true -> charCount s = String.length s
}.

(** The instance the examples are computed with: the ASCII operations on
    every text. *)
#[export] Instance ascii_strings : JsStrings | 100 := {|
  toUpperCase := ascii_toUpperCase;
  trim := ascii_trim;
  charCount := String.length;
  toUpperCase_ascii := fun _ _ => eq_refl;
  trim_ascii := fun _ _ => eq_refl;
  charCount_ascii := fun _ _ => eq_refl
|}.

Fixpoint all_space (s : string) : bool :=
  match s with
  | EmptyString => true
  | String c s' => is_space c && all_space s'
  end.

(** Two characters that differ at most in the case of an ASCII letter. *)
Definition same_letter (a b : ascii) : Prop :=
  a = b \/ (is_lower a = true /\ b = upper_char a)
        \/ (is_lower b = true /\ a = upper_char b).

(** Two strings that differ only in the case of ASCII letters. *)
Inductive case_variant : string -> string -> Prop :=
| cv_nil : case_variant EmptyString EmptyString
| cv_cons a b s t :
    same_letter a b -> case_variant s t ->
    case_variant (String a s) (String b t).

(** [s] is [core] with ASCII white space around it. *)
Definition padded (s core : string) : Prop :=
  exists l r, all_space l = true /\ all_space r = true /\ s = l ++ core ++ r.

(** Two spellings that differ only in the case of ASCII letters or in
    surrounding ASCII white space. *)
Definition spelling_variant (x y : string) : Prop :=
  exists cx cy, padded x cx /\ padded y cy /\ case_variant cx cy.

End JsString.
Export JsString.

(** ** JavaScript numbers *)

Module JsNumber.

(** The spacing of the doubles around [x]: 1 up to 2^53, then doubling with
    every power of two (a double has 53 significant bits). *)
Definition ulp (x : Z) : Z := 2 ^ Z.max 0 (Z.log2 (Z.abs x) - 52).

(** The integers that are doubles. *)
Definition is_double (x : Z) : bool := Z.abs x mod ulp x =? 0.

(** The multiple of [u] nearest to [m], the even multiple on a tie. *)
Definition rounded (m u : Z) : Z :=
  (if 2 * (m mod u) <? u then m / u
   else if u <? 2 * (m mod u) then m / u + 1
   else if Z.even (m / u) then m / u else m / u + 1) * u.

(** Round to nearest, ties to even: the double that stands for the exact
    result [x] of an operation. *)
Definition round_double (x : Z) : Z := Z.sgn x * rounded (Z.abs x) (ulp x).

(** [a + b] on numbers: the exact sum rounded to the nearest double.  An
    integer that is no double is no value of JavaScript; the sum with one
    is left exact. *)
Definition js_add (a b : Z) : Z :=
  if is_double a && is_double b then round_double (a + b) else a + b.

End JsNumber.
Export JsNumber.

(** ** Data model (shared/schema.ts, table [redeem_codes]) *)

(** The two properties of the [jsonb] column [value] that the redemption
    route reads: [value?.downloadUrl] and [value?.fileName]. *)
Record Payload := mkPayload {
  downloadUrl : option string;
  fileName : option string
}.

(** [RedeemCode = typeof redeemCodes.$inferSelect] *)
Record RedeemCode := mkRedeemCode {
  id : string;
  code : string;
  type : string;
  value : Payload;
  productId : option string;
  isMasterCode : bool;
  isActive : bool;
  usageLimit : option Z;
  usageCount : Z;
  expiresAt : option Z;
  createdBy : string;
  createdAt : option Z
}.

(** [InsertRedeemCode = z.infer<typeof insertRedeemCodeSchema>]: the columns
    without [id], [createdAt] and [usageCount]; a column that is nullable or
    has a default is optional. *)
Record InsertRedeemCode := mkInsert {
  ins_code : string;
  ins_type : string;
  ins_value : Payload;
  ins_productId : option string;
  ins_isMasterCode : option bool;
  ins_isActive : option bool;
  ins_usageLimit : option Z;
  ins_expiresAt : option Z;
  ins_createdBy : string
}.

(** ** The JavaScript [Map] holding the records *)

Definition Store := list (string * RedeemCode).

Module JsMap.

Fixpoint get (k : string) (m : Store) : option RedeemCode :=
  match m with
  | [] => None
  | (k', v) :: m' => if String.eqb k' k then Some v else get k m'
  end.

(** [Map.prototype.set]: an existing key keeps its position, a new key is
    appended. *)
Fixpoint set (k : string) (v : RedeemCode) (m : Store) : Store :=
  match m with
  | [] => [(k, v)]
  | (k', v') :: m' =>
      if String.eqb k' k then (k, v) :: m' else (k', v') :: set k v m'
  end.

Fixpoint has (k : string) (m : Store) : bool :=
  match m with
  | [] => false
  | (k', _) :: m' => String.eqb k' k || has k m'
  end.

(** [Map.prototype.delete]: the result tells whether the key was there. *)
Fixpoint remove (k : string) (m : Store) : Store :=
  match m with
  | [] => []
  | (k', v') :: m' =>
      if String.eqb k' k then m' else (k', v') :: remove k m'
  end.

Definition delete (k : string) (m : Store) : bool * Store :=
  (has k m, remove k m).

Definition values (m : Store) : list RedeemCode := map snd m.

Definition keys (m : Store) : list string := map fst m.

End JsMap.

(** A list is a [Map] when no key occurs twice; every record of the store
    is filed under its own [id]. *)
Definition Map_ok (s : Store) : Prop :=
  NoDup (JsMap.keys s) /\ forall k r, In (k, r) s -> id r = k.

(** ** [MemStorage]: the redeem-code methods *)

Definition with_usageCount (r : RedeemCode) (n : Z) : RedeemCode :=
  mkRedeemCode (id r) (code r) (type r) (value r) (productId r)
    (isMasterCode r) (isActive r) (usageLimit r) n (expiresAt r)
    (createdBy r) (createdAt r).

Definition getRedeemCodes (s : Store) : list RedeemCode := JsMap.values s.

Definition getRedeemCode (k : string) (s : Store) : option RedeemCode :=
  JsMap.get k s.

(** [Array.from(values()).find(redeemCode => redeemCode.code === code)] *)
Definition getRedeemCodeByCode (c : string) (s : Store) : option RedeemCode :=
  find (fun redeemCode => String.eqb (code redeemCode) c) (JsMap.values s).

(** [x || 1] on a number-or-null *)
Definition or_one (x : option Z) : Z :=
  match x with
  | Some n => if n =? 0 then 1 else n
  | None => 1
  end.

(** [x || null] on a string-or-null: the empty string is falsy *)
Definition or_null (x : option string) : option string :=
  match x with
  | Some p => if String.eqb p "" then None else Some p
  | None => None
  end.

(** [createRedeemCode]; [uuid] is the value of [randomUUID()] and [now] the
    value of [new Date()]. *)
Definition createRedeemCode (uuid : string) (now : Z)
    (insertRedeemCode : InsertRedeemCode) (s : Store) : RedeemCode * Store :=
  let redeemCode :=
    {| id := uuid;
       code := ins_code insertRedeemCode;
       type := ins_type insertRedeemCode;
       value := ins_value insertRedeemCode;
       productId := or_null (ins_productId insertRedeemCode);
       isMasterCode :=
         match ins_isMasterCode insertRedeemCode with
         | Some b => b
         | None => false
         end;
       isActive :=
         match ins_isActive insertRedeemCode with
         | Some b => b
         | None => true
         end;
       usageLimit := Some (or_one (ins_usageLimit insertRedeemCode));
       usageCount := 0;
       expiresAt := ins_expiresAt insertRedeemCode;
       createdBy := ins_createdBy insertRedeemCode;
       createdAt := Some now |} in
  (redeemCode, JsMap.set uuid redeemCode s).

(** The body of [PUT /api/admin/redeem-codes/:id] is passed to the storage
    unparsed, so besides the properties of [Partial<InsertRedeemCode>] it can
    carry [usageCount].  A property that is absent is [None]; a nullable
    property that is present is [Some None] or [Some (Some _)].  The
    properties [id] and [createdAt] of the body are overwritten by the two
    entries written after the spread and are left out.  The body is taken
    with well-typed properties: numbers are integers, and [expiresAt] is
    the instant that [new Date] reads from the text sent ([null], like the
    empty text, which is falsy too, is [Some None]). *)
Record UpdateBody := mkUpdate {
  upd_code : option string;
  upd_type : option string;
  upd_value : option Payload;
  upd_productId : option (option string);
  upd_isMasterCode : option bool;
  upd_isActive : option bool;
  upd_usageLimit : option (option Z);
  upd_usageCount : option Z;
  upd_expiresAt : option (option Z);
  upd_createdBy : option string
}.

(** one property of [{...redeemCode, ...updateData}] *)
Definition spread {A : Type} (old : A) (upd : option A) : A :=
  match upd with
  | Some x => x
  | None => old
  end.

Definition updateRedeemCode (k : string) (updateData : UpdateBody) (s : Store)
  : option RedeemCode * Store :=
  match JsMap.get k s with
  | Some redeemCode =>
      let updated :=
        {| id := k;
           code := spread (code redeemCode) (upd_code updateData);
           type := spread (type redeemCode) (upd_type updateData);
           value := spread (value redeemCode) (upd_value updateData);
           productId := spread (productId redeemCode) (upd_productId updateData);
           isMasterCode :=
             spread (isMasterCode redeemCode) (upd_isMasterCode updateData);
           isActive := spread (isActive redeemCode) (upd_isActive updateData);
           usageLimit :=
             spread (usageLimit redeemCode) (upd_usageLimit updateData);
           usageCount :=
             spread (usageCount redeemCode) (upd_usageCount updateData);
           expiresAt := spread (expiresAt redeemCode) (upd_expiresAt updateData);
           createdBy := spread (createdBy redeemCode) (upd_createdBy updateData);
           createdAt := createdAt redeemCode |} in
      (Some updated, JsMap.set k updated s)
  | None => (None, s)
  end.

Definition deleteRedeemCode (k : string) (s : Store) : bool * Store :=
  JsMap.delete k s.

(** [incrementRedeemCodeUsage]: returns nothing; [usageCount += 1] changes
    the record object in place, and the record is filed again under the
    same key. *)
Definition incrementRedeemCodeUsage (k : string) (s : Store) : Store :=
  match JsMap.get k s with
  | Some redeemCode =>
      JsMap.set k
        (with_usageCount redeemCode (js_add (usageCount redeemCode) 1)) s
  | None => s
  end.

Definition getRedeemCodesByProduct (p : string) (s : Store) : list RedeemCode :=
  filter (fun c => match productId c with
                   | Some q => String.eqb q p
                   | None => false
                   end) (JsMap.values s).

Definition getMasterRedeemCodes (s : Store) : list RedeemCode :=
  filter (fun c => isMasterCode c) (JsMap.values s).

(** ** Route [POST /api/redeem] *)

(** The reasons a redemption is turned down, in the order of the route's
    [if] statements. *)
Inductive Reason :=
| NotFound
| Inactive
| Expired
| UsageLimitReached
| ScopeMismatch.

Inductive RedeemResponse :=
| ValidationFailed                 (* answered by [handleValidationErrors] *)
| FieldsRequired                   (* [!code || !productId] *)
| Rejected (reason : Reason)
| Redeemed (url file : option string) (codeType : string).

Definition status (r : RedeemResponse) : Z :=
  match r with
  | ValidationFailed => 400
  | FieldsRequired => 400
  | Rejected NotFound => 404
  | Rejected _ => 400
  | Redeemed _ _ _ => 200
  end.

Definition message (r : RedeemResponse) : string :=
  match r with
  | ValidationFailed => "Validation failed"
  | FieldsRequired => "Code and product ID are required"
  | Rejected NotFound =>
      "Invalid redeem code. Please check the code and try again."
  | Rejected Inactive => "This code is no longer active."
  | Rejected Expired => "This code has expired."
  | Rejected UsageLimitReached => "This code has reached its usage limit."
  | Rejected ScopeMismatch =>
      "This code is not valid for this product. Use a master code or the correct product-specific code."
  | Redeemed _ _ _ => "Code redeemed successfully!"
  end.

Definition success (r : RedeemResponse) : bool :=
  match r with
  | Redeemed _ _ _ => true
  | _ => false
  end.

(** [req.body] of the redemption route *)
Record RedeemBody := mkRedeemBody {
  body_code : option string;
  body_productId : option string
}.

(** [isLength({ min: 1, max: 100 })] *)
Definition isLength_1_100 {JS : JsStrings} (s : string) : bool :=
  (1 <=? charCount s)%nat && (charCount s <=? 100)%nat.

(** [redeemValidation]: both fields are trimmed in place, then their lengths
    are checked; [None] stands for the 400 of [handleValidationErrors]. *)
Definition redeemValidation {JS : JsStrings} (b : RedeemBody)
  : option RedeemBody :=
  match body_code b, body_productId b with
  | Some c, Some p =>
      let c' := trim c in
      let p' := trim p in
      if isLength_1_100 c' && isLength_1_100 p'
      then Some (mkRedeemBody (Some c') (Some p'))
      else None
  | _, _ => None
  end.

(** [redeemCode.expiresAt && new Date(redeemCode.expiresAt) < new Date()] *)
Definition is_expired (r : RedeemCode) (now : Z) : bool :=
  match expiresAt r with
  | Some e => e <? now
  | None => false
  end.

(** [redeemCode.usageLimit && redeemCode.usageCount >= redeemCode.usageLimit];
    a limit of [0] is falsy, like [null]. *)
Definition limit_reached (r : RedeemCode) : bool :=
  match usageLimit r with
  | Some l => negb (l =? 0) && (l <=? usageCount r)
  | None => false
  end.

(** [redeemCode.isMasterCode || redeemCode.productId === productId] *)
Definition isValidForProduct (r : RedeemCode) (p : string) : bool :=
  isMasterCode r ||
  match productId r with
  | Some q => String.eqb q p
  | None => false
  end.

(** The route's callback, on the sanitized body. *)
Definition redeemHandler {JS : JsStrings} (now : Z) (b : RedeemBody)
    (s : Store) : RedeemResponse * Store :=
  match body_code b, body_productId b with
  | Some c, Some p =>
      if String.eqb c "" || String.eqb p "" then (FieldsRequired, s)
      else
        match getRedeemCodeByCode (toUpperCase c) s with
        | None => (Rejected NotFound, s)
        | Some redeemCode =>
            if negb (isActive redeemCode) then (Rejected Inactive, s)
            else if is_expired redeemCode now then (Rejected Expired, s)
            else if limit_reached redeemCode
                 then (Rejected UsageLimitReached, s)
            else if negb (isValidForProduct redeemCode p)
                 then (Rejected ScopeMismatch, s)
            else
              let s' := incrementRedeemCodeUsage (id redeemCode) s in
              (Redeemed (downloadUrl (value redeemCode))
                        (fileName (value redeemCode))
                        (if isMasterCode redeemCode then "master" else "product"),
               s')
        end
  | _, _ => (FieldsRequired, s)
  end.

(** The whole route: validation chain, then the callback. *)
Definition postRedeem {JS : JsStrings} (now : Z) (b : RedeemBody)
    (s : Store) : RedeemResponse * Store :=
  match redeemValidation b with
  | Some b' => redeemHandler now b' s
  | None => (ValidationFailed, s)
  end.


(** ** Admin routes *)

(** [req.body] of [POST /api/admin/redeem-codes], property by property and
    with well-typed properties (texts, booleans, an integer); the body's
    own [createdBy] is overwritten by the session's and is left out.
    - [new_value]: [None] when the property is absent; a [value] of [null]
      is held as the payload with neither property, which is how the
      redemption route reads it ([value?.downloadUrl]).
    - [new_productId], [new_usageLimit]: [None] when the property is absent
      or [null], which the schema and [createRedeemCode] treat alike.
    - [new_expiresAt]: [None] when absent, [Some None] for [null],
      [Some (Some text)] for the date-time text a JSON body carries. *)
Record CreateBody := mkCreate {
  new_code : option string;
  new_type : option string;
  new_value : option Payload;
  new_productId : option string;
  new_isMasterCode : option bool;
  new_isActive : option bool;
  new_usageLimit : option Z;
  new_expiresAt : option (option string)
}.

(** the range of an [integer] column *)
Definition is_int32 (n : Z) : bool := (- 2 ^ 31 <=? n) && (n <=? 2 ^ 31 - 1).

(** [insertRedeemCodeSchema.parse({...req.body, createdBy: adminId})].  The
    schema is the one [createInsertSchema] derives from the table, without
    [id], [createdAt] and [usageCount], and with no refinement of its own:
    - [code], [type] and [value] are [notNull] without default and hence
      required;
    - [usageLimit], an [integer] column, must lie in the 32-bit range when
      it is sent;
    - [expiresAt], a [timestamp] column, must be a [Date] object or [null]
      when it is sent, and a JSON body has no [Date] objects: every text is
      turned down;
    - the other columns are optional.
    [None] stands for the [ZodError]. *)
Definition insertRedeemCodeSchema_parse (b : CreateBody) (adminId : string)
  : option InsertRedeemCode :=
  match new_code b, new_type b, new_value b with
  | Some c, Some t, Some v =>
      match new_expiresAt b with
      | Some (Some _) => None
      | _ =>
          if match new_usageLimit b with
             | Some l => is_int32 l
             | None => true
             end
          then Some (mkInsert c t v (new_productId b) (new_isMasterCode b)
                       (new_isActive b) (new_usageLimit b) None adminId)
          else None
      end
  | _, _, _ => None
  end.

Inductive AdminResponse :=
| InvalidSession                       (* 401 *)
| InvalidData                          (* 400, "Invalid redeem code data" *)
| Created (r : RedeemCode)             (* 201 *)
| Updated (r : RedeemCode)             (* 200 *)
| CodeNotFound                         (* 404 *)
| Deleted.                             (* 200 *)

(** [adminId] is [req.session.admin?.adminId]. *)
Definition postAdminRedeemCode (adminId : option string) (uuid : string)
    (now : Z) (b : CreateBody) (s : Store) : AdminResponse * Store :=
  match or_null adminId with
  | None => (InvalidSession, s)
  | Some a =>
      match insertRedeemCodeSchema_parse b a with
      | None => (InvalidData, s)
      | Some redeemCodeData =>
          let (redeemCode, s') := createRedeemCode uuid now redeemCodeData s in
          (Created redeemCode, s')
      end
  end.

Definition putAdminRedeemCode (k : string) (b : UpdateBody) (s : Store)
  : AdminResponse * Store :=
  match updateRedeemCode k b s with
  | (Some updatedCode, s') => (Updated updatedCode, s')
  | (None, s') => (CodeNotFound, s')
  end.

Definition deleteAdminRedeemCode (k : string) (s : Store)
  : AdminResponse * Store :=
  match deleteRedeemCode k s with
  | (true, s') => (Deleted, s')
  | (false, s') => (CodeNotFound, s')
  end.

(** ** Requests and runs of the engine *)

Inductive Request :=
| AdminCreate (adminId : option string) (uuid : string) (now : Z) (b : CreateBody)
| AdminUpdate (k : string) (b : UpdateBody)
| AdminDelete (k : string)
| Redeem (now : Z) (b : RedeemBody).

Definition step {JS : JsStrings} (q : Request) (s : Store) : Store :=
  match q with
  | AdminCreate a u now b => snd (postAdminRedeemCode a u now b s)
  | AdminUpdate k b => snd (putAdminRedeemCode k b s)
  | AdminDelete k => snd (deleteAdminRedeemCode k s)
  | Redeem now b => snd (postRedeem now b s)
  end.

(** The store after serving the requests in order, from the empty [Map] of
    the constructor. *)
Definition run {JS : JsStrings} (qs : list Request) : Store :=
  fold_left (fun s q => step q s) qs [].

(** ** The usage-limit invariant *)






(** ** The order of the checks, as a list *)

(** Whether one check, taken alone, turns the attempt down. *)
Definition fires (reason : Reason) (found : option RedeemCode) (p : string)
    (now : Z) : bool :=
  match found with
  | None => match reason with NotFound => true | _ => false end
  | Some r =>
      match reason with
      | NotFound => false
      | Inactive => negb (isActive r)
      | Expired => is_expired r now
      | UsageLimitReached => limit_reached r
      | ScopeMismatch => negb (isValidForProduct r p)
      end
  end.

Definition check_order : list Reason :=
  [NotFound; Inactive; Expired; UsageLimitReached; ScopeMismatch].

(** The first check of [check_order] that fires, if any. *)
Definition first_rejection (found : option RedeemCode) (p : string) (now : Z)
  : option Reason :=
  find (fun reason => fires reason found p now) check_order.

(** ** Derived notions and sample data *)

(** What the route answers once the body passed the validation chain. *)
Definition redeemOutcome {JS : JsStrings} (now : Z) (c p : string)
    (s : Store) : RedeemResponse * Store :=
  match getRedeemCodeByCode (toUpperCase c) s with
  | None => (Rejected NotFound, s)
  | Some r =>
      match first_rejection (Some r) p now with
      | Some reason => (Rejected reason, s)
      | None =>
          (Redeemed (downloadUrl (value r)) (fileName (value r))
                    (if isMasterCode r then "master" else "product"),
           incrementRedeemCodeUsage (id r) s)
      end
  end.

Definition zip : Payload :=
  mkPayload (Some "https://cdn.example/pack.zip") (Some "pack.zip").

(** a master code with one use left *)
Definition master1 : RedeemCode :=
  {| id := "id-1"; code := "MASTER1"; type := "download"; value := zip;
     productId := None; isMasterCode := true; isActive := true;
     usageLimit := Some 2; usageCount := 1; expiresAt := Some 5000;
     createdBy := "admin-1"; createdAt := Some 10 |}.

(** a product code that has used up its single use *)
Definition spent1 : RedeemCode :=
  {| id := "id-2"; code := "SAVE20"; type := "download"; value := zip;
     productId := Some "X"; isMasterCode := false; isActive := true;
     usageLimit := Some 1; usageCount := 1; expiresAt := None;
     createdBy := "admin-1"; createdAt := Some 20 |}.

(** a code that is switched off and past its expiry at instant 2000 *)
Definition old1 : RedeemCode :=
  {| id := "id-3"; code := "OLD1"; type := "download"; value := zip;
     productId := Some "X"; isMasterCode := false; isActive := false;
     usageLimit := Some 5; usageCount := 0; expiresAt := Some 1000;
     createdBy := "admin-1"; createdAt := Some 30 |}.

Definition shop : Store := [("id-1", master1); ("id-2", spent1); ("id-3", old1)].

(** The answer of the route to the body [{ code: c, productId: p }]. *)
Definition redeemResponse {JS : JsStrings} (now : Z) (c p : string)
    (s : Store) : RedeemResponse :=
  fst (postRedeem now (mkRedeemBody (Some c) (Some p)) s).

(** The record the route looks at for the submitted text [c]. *)
Definition lookup {JS : JsStrings} (c : string) (s : Store)
  : option RedeemCode :=
  getRedeemCodeByCode (toUpperCase (trim c)) s.

Definition pcode1_body : CreateBody :=
  {| new_code := Some "PCODE1"; new_type := Some "download";
     new_value := Some zip; new_productId := Some "X";
     new_isMasterCode := Some false; new_isActive := None;
     new_usageLimit := None; new_expiresAt := None |}.

Definition pcode1_requests : list Request :=
  [AdminCreate (Some "admin-1") "id-9" 100 pcode1_body;
   Redeem 200 (mkRedeemBody (Some "pcode1") (Some "X"));
   Redeem 300 (mkRedeemBody (Some "pcode1") (Some "X"))].

(** the body [{ "usageLimit": l }] *)
Definition limit_body (l : Z) : UpdateBody :=
  mkUpdate None None None None None None (Some (Some l)) None None None.





(** the body [{ "usageCount": 7 }] *)
Definition counter_body : UpdateBody :=
  mkUpdate None None None None None None None (Some 7) None None.

Definition save20_body : CreateBody :=
  {| new_code := Some "SAVE20"; new_type := Some "download";
     new_value := Some zip; new_productId := Some "Y";
     new_isMasterCode := Some false; new_isActive := None;
     new_usageLimit := Some 3; new_expiresAt := None |}.

(** master flag and product id together, a negative limit, a payload with
    neither [downloadUrl] nor [fileName] *)
Definition odd_body : CreateBody :=
  {| new_code := Some "ODD1"; new_type := Some "download";
     new_value := Some (mkPayload None None); new_productId := Some "X";
     new_isMasterCode := Some true; new_isActive := None;
     new_usageLimit := Some (-3); new_expiresAt := None |}.


(** the body the admin forms send when no expiry is entered:
    [expiresAt: ''] *)
Definition form_body : CreateBody :=
  {| new_code := Some "FORM1"; new_type := Some "download";
     new_value := Some zip; new_productId := None;
     new_isMasterCode := Some true; new_isActive := Some true;
     new_usageLimit := Some 1; new_expiresAt := Some (Some "") |}.

(** a limit beyond the range of an [integer] column *)
Definition huge_limit_body : CreateBody :=
  {| new_code := Some "HUGE1"; new_type := Some "download";
     new_value := Some zip; new_productId := None;
     new_isMasterCode := Some true; new_isActive := None;
     new_usageLimit := Some (2 ^ 31); new_expiresAt := None |}.

Definition no_type_body : CreateBody :=
  {| new_code := Some "NOTYPE"; new_type := None;
     new_value := Some zip; new_productId := None;
     new_isMasterCode := Some true; new_isActive := None;
     new_usageLimit := Some 1; new_expiresAt := None |}.


(** the product code ["FREE1"] after an update that set its limit to [null] *)
Definition free1 : RedeemCode :=
  {| id := "id-4"; code := "FREE1"; type := "download"; value := zip;
     productId := Some "X"; isMasterCode := false; isActive := true;
     usageLimit := None; usageCount := 4; expiresAt := None;
     createdBy := "admin-1"; createdAt := Some 40 |}.

Definition lower_body : CreateBody :=
  {| new_code := Some "save20"; new_type := Some "download";
     new_value := Some zip; new_productId := Some "X";
     new_isMasterCode := Some false; new_isActive := None;
     new_usageLimit := Some 3; new_expiresAt := None |}.

(** decides [case_variant] on two given strings *)
Ltac same_letters :=
  repeat (apply cv_cons;
          [first [ left; reflexivity
                 | right; left; split; reflexivity
                 | right; right; split; reflexivity ] |]);
  apply cv_nil.


(** ** Further notions for the redeem-code engine *)

(** A body property the validation chain of the redemption route turns
    down: absent, blank, or longer than 100 characters once trimmed. *)
Definition unacceptable {JS : JsStrings} (field : option string) : Prop :=
  match field with
  | None => True
  | Some c => all_space c = true \/ (100 < charCount (trim c))%nat
  end.

(** Requests that cannot lower the counter of a stored code: a creation
    whose generated id is new to the store, an update that sends no
    [usageCount], any deletion and any redemption. *)
Definition never_lowers (q : Request) (s : Store) : Prop :=
  match q with
  | AdminCreate _ u _ _ => ~ In u (JsMap.keys s)
  | AdminUpdate _ b => upd_usageCount b = None
  | AdminDelete _ => True
  | Redeem _ _ => True
  end.

(** the body [{}] of an update *)
Definition empty_update : UpdateBody :=
  mkUpdate None None None None None None None None None None.

(** ** JavaScript [Map]s with string keys, for any type of values *)

Definition MapOf (V : Type) : Type := list (string * V).

Fixpoint mget {V : Type} (k : string) (m : MapOf V) : option V :=
  match m with
  | [] => None
  | (k', v) :: m' => if String.eqb k' k then Some v else mget k m'
  end.

(** [set]: an existing key keeps its position, a new key is appended. *)
Fixpoint mset {V : Type} (k : string) (v : V) (m : MapOf V) : MapOf V :=
  match m with
  | [] => [(k, v)]
  | (k', v') :: m' =>
      if String.eqb k' k then (k, v) :: m' else (k', v') :: mset k v m'
  end.

Fixpoint mhas {V : Type} (k : string) (m : MapOf V) : bool :=
  match m with
  | [] => false
  | (k', _) :: m' => String.eqb k' k || mhas k m'
  end.

Fixpoint mremove {V : Type} (k : string) (m : MapOf V) : MapOf V :=
  match m with
  | [] => []
  | (k', v') :: m' =>
      if String.eqb k' k then m' else (k', v') :: mremove k m'
  end.

(** [delete]: tells whether the key was there. *)
Definition mdelete {V : Type} (k : string) (m : MapOf V) : bool * MapOf V :=
  (mhas k m, mremove k m).

Definition mvalues {V : Type} (m : MapOf V) : list V := map snd m.

Definition mkeys {V : Type} (m : MapOf V) : list string := map fst m.

(** An assignment to a property of the first stored object that satisfies
    [f]: the object is changed where it lies. *)
Fixpoint mutate_first {V : Type} (f : V -> bool) (g : V -> V) (m : MapOf V)
  : MapOf V :=
  match m with
  | [] => []
  | (k, v) :: m' =>
      if f v then (k, g v) :: m' else (k, v) :: mutate_first f g m'
  end.

(** ** Cart and orders ([MemStorage] and the routes under [/api/cart] and
    [/api/orders]) *)

Module Cart.

(** [CartItem = typeof cartItems.$inferSelect] *)
Record CartItem := mkCartItem {
  id : string;
  sessionId : string;
  productId : string;
  quantity : Z;
  addedAt : option Z
}.

(** [InsertCartItem]: [quantity] has a default and is optional. *)
Record InsertCartItem := mkInsertCartItem {
  ins_sessionId : string;
  ins_productId : string;
  ins_quantity : option Z
}.

Definition with_quantity (item : CartItem) (q : Z) : CartItem :=
  mkCartItem (id item) (sessionId item) (productId item) q (addedAt item).

(** [item.sessionId === sessionId && item.productId === productId] *)
Definition same_line (sid pid : string) (item : CartItem) : bool :=
  String.eqb (sessionId item) sid && String.eqb (productId item) pid.

(** [getCartItems]: the lines of the session, each with its product;
    [None] stands for the [Error] thrown when a product is missing.
    [Product] is the type of the product records, of which only the lookup
    by id is used. *)
Fixpoint attach_products {Product : Type} (products : MapOf Product)
    (items : list CartItem) : option (list (CartItem * Product)) :=
  match items with
  | [] => Some []
  | item :: rest =>
      match mget (productId item) products with
      | None => None
      | Some product =>
          match attach_products products rest with
          | None => None
          | Some l => Some ((item, product) :: l)
          end
      end
  end.

Definition getCartItems {Product : Type} (sid : string)
    (products : MapOf Product) (cart : MapOf CartItem)
  : option (list (CartItem * Product)) :=
  attach_products products
    (filter (fun item => String.eqb (sessionId item) sid) (mvalues cart)).

(** [addToCart]; [uuid] is the value of [randomUUID()], [now] of
    [new Date()].  The quantity added is [insertCartItem.quantity || 1],
    and [existingItem.quantity += ...] adds it as numbers are added. *)
Definition addToCart (uuid : string) (now : Z) (insertCartItem : InsertCartItem)
    (cart : MapOf CartItem) : CartItem * MapOf CartItem :=
  let sid := ins_sessionId insertCartItem in
  let pid := ins_productId insertCartItem in
  let q := or_one (ins_quantity insertCartItem) in
  match find (same_line sid pid) (mvalues cart) with
  | Some existingItem =>
      let grow item := with_quantity item (js_add (quantity item) q) in
      (grow existingItem,
       mset (id existingItem) (grow existingItem)
            (mutate_first (same_line sid pid) grow cart))
  | None =>
      let cartItem := mkCartItem uuid sid pid q (Some now) in
      (cartItem, mset uuid cartItem cart)
  end.

Definition updateCartItemQuantity (sid pid : string) (q : Z)
    (cart : MapOf CartItem) : option CartItem * MapOf CartItem :=
  match find (same_line sid pid) (mvalues cart) with
  | Some item =>
      let put it := with_quantity it q in
      (Some (put item),
       mset (id item) (put item) (mutate_first (same_line sid pid) put cart))
  | None => (None, cart)
  end.

(** [removeFromCart]: the first entry of the line is deleted by its key. *)
Definition removeFromCart (sid pid : string) (cart : MapOf CartItem)
  : bool * MapOf CartItem :=
  match find (fun entry => same_line sid pid (snd entry)) cart with
  | Some itemToRemove => (true, mremove (fst itemToRemove) cart)
  | None => (false, cart)
  end.

(** [clearCart]: the entries of the session are collected, then deleted
    one by one by key. *)
Definition clearCart (sid : string) (cart : MapOf CartItem)
  : bool * MapOf CartItem :=
  let itemsToRemove :=
    filter (fun entry => String.eqb (sessionId (snd entry)) sid) cart in
  (true, fold_left (fun m entry => mremove (fst entry) m) itemsToRemove cart).

(** A [jsonb] value, kept as its JSON text. *)
Definition Json : Type := string.

(** [Order = typeof orders.$inferSelect] *)
Record Order := mkOrder {
  order_id : string;
  order_sessionId : string;
  total : string;
  status : string;
  paymentMethod : string;
  billingInfo : Json;
  items : Json;
  createdAt : option Z
}.

(** [req.body] of [POST /api/orders], property by property. *)
Record OrderBody := mkOrderBody {
  ob_sessionId : option string;
  ob_total : option string;
  ob_status : option string;
  ob_paymentMethod : option string;
  ob_billingInfo : option Json;
  ob_items : option Json
}.

(** [InsertOrder]: [status] has a default and is optional. *)
Record InsertOrder := mkInsertOrder {
  io_sessionId : string;
  io_total : string;
  io_status : option string;
  io_paymentMethod : string;
  io_billingInfo : Json;
  io_items : Json
}.

(** [insertOrderSchema.parse]: every [notNull] column without default is
    required; [None] stands for the [ZodError]. *)
Definition insertOrderSchema_parse (b : OrderBody) : option InsertOrder :=
  match ob_sessionId b, ob_total b, ob_paymentMethod b,
        ob_billingInfo b, ob_items b with
  | Some sid, Some t, Some pm, Some bi, Some its =>
      Some (mkInsertOrder sid t (ob_status b) pm bi its)
  | _, _, _, _, _ => None
  end.

(** [createOrder]; the status is [insertOrder.status || "pending"]. *)
Definition createOrder (uuid : string) (now : Z) (insertOrder : InsertOrder)
    (orders : MapOf Order) : Order * MapOf Order :=
  let order :=
    mkOrder uuid (io_sessionId insertOrder) (io_total insertOrder)
      (match or_null (io_status insertOrder) with
       | Some st => st
       | None => "pending"
       end)
      (io_paymentMethod insertOrder) (io_billingInfo insertOrder)
      (io_items insertOrder) (Some now) in
  (order, mset uuid order orders).

Definition getOrder (k : string) (orders : MapOf Order) : option Order :=
  mget k orders.

(** *** The routes *)

(** [req.body] of [POST /api/cart] *)
Record CartBody := mkCartBody {
  cb_sessionId : option string;
  cb_productId : option string;
  cb_quantity : option Z
}.

(** [cartValidation]: session and product id are trimmed in place and must
    have 1 to 100 characters, the quantity must be an integer from 1 to
    999; [None] stands for the 400 of [handleValidationErrors]. *)
Definition cartValidation {JS : JsStrings} (b : CartBody) : option CartBody :=
  match cb_sessionId b, cb_productId b, cb_quantity b with
  | Some sid, Some pid, Some q =>
      if isLength_1_100 (trim sid) && isLength_1_100 (trim pid)
         && (1 <=? q) && (q <=? 999)
      then Some (mkCartBody (Some (trim sid)) (Some (trim pid)) (Some q))
      else None
  | _, _, _ => None
  end.

(** [insertCartItemSchema.parse] *)
Definition insertCartItemSchema_parse (b : CartBody) : option InsertCartItem :=
  match cb_sessionId b, cb_productId b with
  | Some sid, Some pid => Some (mkInsertCartItem sid pid (cb_quantity b))
  | _, _ => None
  end.

Inductive Response {Product : Type} :=
| Invalid                                   (* 400 *)
| Missing                                   (* 404 *)
| Failed                                    (* 500 *)
| Lines (l : list (CartItem * Product))     (* 200, [GET /api/cart/:sessionId] *)
| Added (item : CartItem)                   (* 201 *)
| Changed (item : CartItem)                 (* 200 *)
| NoContent                                 (* 204 *)
| Ordered (order : Order)                   (* 201 *)
| Found (order : Order).                    (* 200 *)
Arguments Response : clear implicits.

Definition getCart {Product : Type} (sid : string) (products : MapOf Product)
    (cart : MapOf CartItem) : Response Product :=
  match getCartItems sid products cart with
  | Some l => Lines l
  | None => Failed
  end.

Definition postCart {Product : Type} {JS : JsStrings} (uuid : string)
    (now : Z) (b : CartBody) (cart : MapOf CartItem)
  : Response Product * MapOf CartItem :=
  match cartValidation b with
  | None => (Invalid, cart)
  | Some b' =>
      match insertCartItemSchema_parse b' with
      | None => (Invalid, cart)
      | Some cartItem =>
          let (addedItem, cart') := addToCart uuid now cartItem cart in
          (Added addedItem, cart')
      end
  end.

(** [PATCH /api/cart/:sessionId/:productId]; the body's [quantity] is an
    integer or absent, and [typeof quantity !== 'number' || quantity < 1]
    answers 400. *)
Definition patchCart {Product : Type} (sid pid : string) (q : option Z)
    (cart : MapOf CartItem) : Response Product * MapOf CartItem :=
  match q with
  | None => (Invalid, cart)
  | Some n =>
      if n <? 1 then (Invalid, cart)
      else
        match updateCartItemQuantity sid pid n cart with
        | (Some updatedItem, cart') => (Changed updatedItem, cart')
        | (None, cart') => (Missing, cart')
        end
  end.

Definition deleteCartItem {Product : Type} (sid pid : string)
    (cart : MapOf CartItem) : Response Product * MapOf CartItem :=
  match removeFromCart sid pid cart with
  | (true, cart') => (NoContent, cart')
  | (false, cart') => (Missing, cart')
  end.

Definition deleteCart {Product : Type} (sid : string) (cart : MapOf CartItem)
  : Response Product * MapOf CartItem :=
  (NoContent, snd (clearCart sid cart)).

(** [POST /api/orders]: the order is stored, then the cart of its session
    is cleared. *)
Definition postOrder {Product : Type} (uuid : string) (now : Z) (b : OrderBody)
    (cart : MapOf CartItem) (orders : MapOf Order)
  : Response Product * (MapOf CartItem * MapOf Order) :=
  match insertOrderSchema_parse b with
  | None => (Invalid, (cart, orders))
  | Some order =>
      let (createdOrder, orders') := createOrder uuid now order orders in
      (Ordered createdOrder, (snd (clearCart (io_sessionId order) cart), orders'))
  end.

Definition getOrderRoute {Product : Type} (k : string) (orders : MapOf Order)
  : Response Product :=
  match getOrder k orders with
  | Some order => Found order
  | None => Missing
  end.

(** The quantity a session holds of a product: that of the first entry of
    the line, [0] when there is none. *)
Definition line_quantity (sid pid : string) (cart : MapOf CartItem) : Z :=
  match find (same_line sid pid) (mvalues cart) with
  | Some item => quantity item
  | None => 0
  end.

(** The cart is a [Map] whose items lie under their own id, and no two
    entries belong to the same session and product. *)
Definition Cart_ok (cart : MapOf CartItem) : Prop :=
  NoDup (mkeys cart) /\
  (forall k item, In (k, item) cart -> id item = k) /\
  (forall k1 i1 k2 i2,
     In (k1, i1) cart -> In (k2, i2) cart ->
     sessionId i1 = sessionId i2 -> productId i1 = productId i2 -> k1 = k2).

(** [deleteProduct] *)
Definition deleteProduct {Product : Type} (k : string)
    (products : MapOf Product) : bool * MapOf Product :=
  mdelete k products.

(** The requests that write to the cart, and the cart after serving them
    in order from the empty [Map]; the id of an order and the stored orders
    do not bear on what an order does to the cart. *)
Inductive Request :=
| PostCart (uuid : string) (now : Z) (b : CartBody)
| PatchCart (sid pid : string) (q : option Z)
| DeleteCartItem (sid pid : string)
| DeleteCart (sid : string)
| PostOrder (b : OrderBody).

Definition step {JS : JsStrings} (q : Request) (cart : MapOf CartItem)
  : MapOf CartItem :=
  match q with
  | PostCart uuid now b => snd (@postCart unit _ uuid now b cart)
  | PatchCart sid pid n => snd (@patchCart unit sid pid n cart)
  | DeleteCartItem sid pid => snd (@deleteCartItem unit sid pid cart)
  | DeleteCart sid => snd (@deleteCart unit sid cart)
  | PostOrder b => fst (snd (@postOrder unit "" 0 b cart []))
  end.

Definition run {JS : JsStrings} (qs : list Request) : MapOf CartItem :=
  fold_left (fun cart q => step q cart) qs [].

End Cart.

(** *** Sample cart *)

(** session [s1] holds two of product 1 and five of product 3, session
    [s2] one of product 1 *)
Definition cart1 : MapOf Cart.CartItem :=
  [("c-1", Cart.mkCartItem "c-1" "s1" "1" 2 (Some 10));
   ("c-2", Cart.mkCartItem "c-2" "s2" "1" 1 (Some 20));
   ("c-3", Cart.mkCartItem "c-3" "s1" "3" 5 (Some 30))].

(** a catalogue, each product standing for its record *)
Definition catalogue : MapOf string :=
  [("1", "HoloProjector X1"); ("2", "Neural Lens Pro"); ("3", "CyberPhone Neon")].

Definition order_body : Cart.OrderBody :=
  Cart.mkOrderBody (Some "s1") (Some "12.34") None (Some "crypto")
    (Some "{}") (Some "[]").

(** ** Admin accounts: login, lock-out and the admin gate *)

Module Auth.

(** [Admin = typeof admins.$inferSelect] *)
Record Admin := mkAdmin {
  id : string;
  username : string;
  passwordHash : string;
  email : string;
  role : string;
  isActive : bool;
  lastLogin : option Z;
  failedLoginAttempts : Z;
  lockedUntil : option Z;
  createdAt : option Z;
  updatedAt : option Z
}.

(** an entry of the [loginAttempts] map of the routes, kept per address *)
Record Attempts := mkAttempts {
  count : Z;
  resetTime : Z
}.

(** What a login reads and writes: the admins of [MemStorage] and the
    [loginAttempts] map. *)
Record State := mkState {
  admins : MapOf Admin;
  loginAttempts : MapOf Attempts
}.

(** [req.session.admin]; [{}] has every property absent. *)
Record AdminSession := mkSession {
  s_adminId : option string;
  s_username : option string;
  s_role : option string;
  s_isAuthenticated : option bool
}.

Definition no_session : AdminSession := mkSession None None None None.

Definition minutes (n : Z) : Z := n * 60 * 1000.

(** [getAdminByUsername] *)
Definition getAdminByUsername (u : string) (m : MapOf Admin) : option Admin :=
  find (fun admin => String.eqb (username admin) u) (mvalues m).

(** [updateAdminLoginAttempts]; [lockedUntil || null] keeps a date as it
    is. *)
Definition updateAdminLoginAttempts (adminId : string) (attempts : Z)
    (locked : option Z) (now : Z) (m : MapOf Admin) : MapOf Admin :=
  match mget adminId m with
  | Some admin =>
      mset adminId
        (mkAdmin (id admin) (username admin) (passwordHash admin)
           (email admin) (role admin) (isActive admin) (lastLogin admin)
           attempts locked (createdAt admin) (Some now)) m
  | None => m
  end.

(** [updateAdminLastLogin] *)
Definition updateAdminLastLogin (adminId : string) (now : Z) (m : MapOf Admin)
  : MapOf Admin :=
  match mget adminId m with
  | Some admin =>
      mset adminId
        (mkAdmin (id admin) (username admin) (passwordHash admin)
           (email admin) (role admin) (isActive admin) (Some now)
           0 None (createdAt admin) (Some now)) m
  | None => m
  end.

(** [admin.lockedUntil && admin.lockedUntil > new Date()] *)
Definition is_locked (admin : Admin) (now : Z) : bool :=
  match lockedUntil admin with
  | Some t => now <? t
  | None => false
  end.

(** [ip || 'unknown'] *)
Definition address (ip : option string) : string :=
  match or_null ip with
  | Some a => a
  | None => "unknown"
  end.

(** The three statements that count a failed attempt of an address: the
    entry is read, or begun with a window of 15 minutes, its count is
    raised and it is filed again. *)
Definition count_attempt (ip : option string) (now : Z) (m : MapOf Attempts)
  : MapOf Attempts :=
  let attempts :=
    match mget (address ip) m with
    | Some a => a
    | None => mkAttempts 0 (now + minutes 15)
    end in
  mset (address ip) (mkAttempts (count attempts + 1) (resetTime attempts)) m.

(** [req.body] of [POST /api/admin/login] *)
Record LoginBody := mkLoginBody {
  lb_username : option string;
  lb_password : option string
}.

(** [isLength({ min, max })] *)
Definition isLength {JS : JsStrings} (lo hi : nat) (s : string) : bool :=
  (lo <=? charCount s)%nat && (charCount s <=? hi)%nat.

(** [loginValidation]: the user name is trimmed in place and must have 3 to
    50 characters, the password 6 to 100. *)
Definition loginValidation {JS : JsStrings} (b : LoginBody)
  : option LoginBody :=
  match lb_username b, lb_password b with
  | Some u, Some p =>
      if isLength 3 50 (trim u) && isLength 6 100 p
      then Some (mkLoginBody (Some (trim u)) (Some p))
      else None
  | _, _ => None
  end.

Inductive LoginResponse :=
| ValidationFailed                          (* 400 *)
| CredentialsRequired                       (* 400 *)
| InvalidCredentials                        (* 401 *)
| AccountLocked                             (* 423 *)
| AccountInactive                           (* 401 *)
| LoggedIn (admin_id admin_username admin_email admin_role : string).  (* 200 *)

Definition status (r : LoginResponse) : Z :=
  match r with
  | ValidationFailed => 400
  | CredentialsRequired => 400
  | InvalidCredentials => 401
  | AccountLocked => 423
  | AccountInactive => 401
  | LoggedIn _ _ _ _ => 200
  end.

Section Login.

Context {JS : JsStrings}.

(** [bcrypt.compare(password, hash)], as a function of its arguments *)
Variable compare : string -> string -> bool.

(** The callback of [POST /api/admin/login], on the sanitized body, run
    without another request in between; the third component is the session
    the callback sets, if it sets one. *)
Definition loginHandler (now : Z) (ip : option string) (b : LoginBody)
    (st : State) : LoginResponse * State * option AdminSession :=
  match or_null (lb_username b), or_null (lb_password b) with
  | Some u, Some password =>
      match getAdminByUsername u (admins st) with
      | None =>
          (InvalidCredentials,
           mkState (admins st) (count_attempt ip now (loginAttempts st)),
           None)
      | Some admin =>
          if is_locked admin now then (AccountLocked, st, None)
          else if negb (isActive admin) then (AccountInactive, st, None)
          else if negb (compare password (passwordHash admin)) then
            let newAttempts := failedLoginAttempts admin + 1 in
            let locked :=
              if 5 <=? newAttempts then Some (now + minutes 30) else None in
            (InvalidCredentials,
             mkState
               (updateAdminLoginAttempts (id admin) newAttempts locked now
                  (admins st))
               (count_attempt ip now (loginAttempts st)),
             None)
          else
            (LoggedIn (id admin) (username admin) (email admin) (role admin),
             mkState (updateAdminLastLogin (id admin) now (admins st))
                     (snd (mdelete (address ip) (loginAttempts st))),
             Some (mkSession (Some (id admin)) (Some (username admin))
                     (Some (role admin)) (Some true)))
      end
  | _, _ => (CredentialsRequired, st, None)
  end.

(** The route after [loginRateLimit] let the request pass: validation
    chain, then the callback. *)
Definition postLogin (now : Z) (ip : option string) (b : LoginBody)
    (st : State) : LoginResponse * State * option AdminSession :=
  match loginValidation b with
  | Some b' => loginHandler now ip b' st
  | None => (ValidationFailed, st, None)
  end.

End Login.

(** What [requireAdmin] decides. *)
Inductive Gate :=
| Next                                      (* [next()] *)
| AuthenticationRequired                    (* 401 *)
| InvalidSession                            (* 401 *)
| AccountIsInactive                         (* 401 *)
| TemporarilyLocked.                        (* 423 *)

Definition truthy (o : option string) : bool :=
  match or_null o with
  | Some _ => true
  | None => false
  end.

(** [requireAdmin]: the decision and the session it leaves; [session] is
    [req.session.admin], absent for a visitor without one. *)
Definition requireAdmin (now : Z) (session : option AdminSession)
    (m : MapOf Admin) : Gate * option AdminSession :=
  match session with
  | None => (AuthenticationRequired, session)
  | Some s =>
      if negb (match s_isAuthenticated s with Some b => b | None => false end)
         || negb (truthy (s_adminId s))
      then (AuthenticationRequired, session)
      else
        match or_null (s_username s) with
        | None => (InvalidSession, Some no_session)
        | Some u =>
            match getAdminByUsername u m with
            | None => (AccountIsInactive, Some no_session)
            | Some admin =>
                if negb (isActive admin)
                then (AccountIsInactive, Some no_session)
                else if is_locked admin now
                then (TemporarilyLocked, Some no_session)
                else (Next, session)
            end
        end
  end.

(** The admins form a [Map] and lie under their own id. *)
Definition Admins_ok (m : MapOf Admin) : Prop :=
  NoDup (mkeys m) /\ forall k admin, In (k, admin) m -> id admin = k.

End Auth.

(** Login requests served one after the other: instant, address and
    body of each. *)
Fixpoint loginAll {JS : JsStrings} (compare : string -> string -> bool)
    (reqs : list (Z * option string * Auth.LoginBody)) (st : Auth.State)
  : list Auth.LoginResponse * Auth.State :=
  match reqs with
  | [] => ([], st)
  | (now, ip, b) :: rest =>
      let '(r, st1, _) := Auth.postLogin compare now ip b st in
      let (rs, st2) := loginAll compare rest st1 in
      (r :: rs, st2)
  end.

(** A request that names the user [u] with a well-formed password that
    does not match [hash]. *)
Definition wrong_attempt {JS : JsStrings} (compare : string -> string -> bool)
    (u hash : string) (req : Z * option string * Auth.LoginBody) : Prop :=
  exists u' p,
    snd req = Auth.mkLoginBody (Some u') (Some p) /\ trim u' = u /\
    Auth.isLength 6 100 p = true /\ compare p hash = false.

(** *** Sample admins *)

(** the seeded admin, after four failed logins *)
Definition admin1 : Auth.Admin :=
  Auth.mkAdmin "admin-1" "admin" "hash-of-admin123" "admin@neomarket.com"
    "admin" true None 4 None (Some 0) (Some 0).

Definition office : Auth.State :=
  Auth.mkState [("admin-1", admin1)] [].

(** a stand-in for [bcrypt.compare]: the hash of [p] is ["hash-of-" ++ p] *)
Definition toy_compare (p hash : string) : bool :=
  String.eqb ("hash-of-" ++ p) hash.

Definition admin1_session : Auth.AdminSession :=
  Auth.mkSession (Some "admin-1") (Some "admin") (Some "admin") (Some true).

(** the seeded admin with no failed login *)
Definition admin0 : Auth.Admin :=
  Auth.mkAdmin "admin-1" "admin" "hash-of-admin123" "admin@neomarket.com"
    "admin" true None 0 None (Some 0) (Some 0).

Definition office0 : Auth.State :=
  Auth.mkState [("admin-1", admin0)] [].

(** a login under the name [admin] from one address *)
Definition guess (t : Z) (p : string) : Z * option string * Auth.LoginBody :=
  (t, Some "6.6.6.6", Auth.mkLoginBody (Some "admin") (Some p)).

Definition four_guesses : list (Z * option string * Auth.LoginBody) :=
  [guess 1 "wrong-1"; guess 2 "wrong-2"; guess 3 "wrong-3"; guess 4 "wrong-4"].
(** * Properties *)

(** ** Sums of doubles *)

Section Rounding.

Import JsNumber.


Lemma ulp_pos x : 0 < ulp x.
Proof. unfold ulp. apply Z.pow_pos_nonneg; lia. Qed.

Lemma ulp_abs x : ulp (Z.abs x) = ulp x.
Proof. unfold ulp. now rewrite Z.abs_idemp. Qed.


(** below 2^53 the unit is 1 *)
Lemma ulp_small x : Z.abs x < 2 ^ 53 -> ulp x = 1.
Proof.
  intros H. unfold ulp.
  assert (Z.log2 (Z.abs x) < 53).
  { destruct (Z.eq_dec (Z.abs x) 0) as [E|E]; [rewrite E; simpl; lia|].
    apply Z.log2_lt_pow2; lia. }
  replace (Z.max 0 (Z.log2 (Z.abs x) - 52)) with 0 by lia. reflexivity.
Qed.

(** the magnitude lies below 2^53 units *)
Lemma ulp_upper x : Z.abs x < 2 ^ 53 * ulp x.
Proof.
  destruct (Z.lt_ge_cases (Z.abs x) (2 ^ 53)) as [H|H].
  - rewrite (ulp_small x H). lia.
  - unfold ulp.
    assert (Hp : 0 < Z.abs x) by lia.
    pose proof (Z.log2_spec _ Hp) as [_ Hu].
    assert (53 <= Z.log2 (Z.abs x)) by (apply Z.log2_le_pow2; lia).
    replace (Z.max 0 (Z.log2 (Z.abs x) - 52)) with (Z.log2 (Z.abs x) - 52) by lia.
    rewrite <- Z.pow_add_r by lia.
    replace (53 + (Z.log2 (Z.abs x) - 52)) with (Z.succ (Z.log2 (Z.abs x))) by lia.
    exact Hu.
Qed.

(** and, where the unit exceeds 1, at or above 2^52 units *)
Lemma ulp_lower x : 1 < ulp x -> 2 ^ 52 * ulp x <= Z.abs x.
Proof.
  intros H1.
  destruct (Z.lt_ge_cases (Z.abs x) (2 ^ 53)) as [H|H].
  - rewrite (ulp_small x H) in H1. lia.
  - unfold ulp.
    assert (Hp : 0 < Z.abs x) by lia.
    pose proof (Z.log2_spec _ Hp) as [Hl _].
    assert (53 <= Z.log2 (Z.abs x)) by (apply Z.log2_le_pow2; lia).
    replace (Z.max 0 (Z.log2 (Z.abs x) - 52)) with (Z.log2 (Z.abs x) - 52) by lia.
    rewrite <- Z.pow_add_r by lia.
    replace (52 + (Z.log2 (Z.abs x) - 52)) with (Z.log2 (Z.abs x)) by lia.
    exact Hl.
Qed.

(** the unit of a smaller magnitude divides the unit of a larger one *)
Lemma ulp_divide x y : Z.abs x <= Z.abs y -> exists k, 0 < k /\ ulp y = k * ulp x.
Proof.
  intros H. unfold ulp.
  assert (Hl : Z.log2 (Z.abs x) <= Z.log2 (Z.abs y)) by (apply Z.log2_le_mono; lia).
  set (a := Z.max 0 (Z.log2 (Z.abs x) - 52)).
  set (b := Z.max 0 (Z.log2 (Z.abs y) - 52)).
  assert (0 <= a <= b) by (unfold a, b; lia).
  exists (2 ^ (b - a)). split; [apply Z.pow_pos_nonneg; lia|].
  rewrite <- Z.pow_add_r by lia. f_equal. lia.
Qed.

Lemma is_double_spec x : is_double x = true <-> exists k, Z.abs x = k * ulp x.
Proof.
  unfold is_double. rewrite Z.eqb_eq. pose proof (ulp_pos x). split.
  - intros E. exists (Z.abs x / ulp x).
    pose proof (Z.div_mod (Z.abs x) (ulp x)). lia.
  - intros [k E]. rewrite E. apply Z.mod_mul. lia.
Qed.



Lemma rounded_bounds m u :
  0 <= m -> 0 < u ->
  m - m mod u <= rounded m u <= m - m mod u + u /\
  (m mod u = 0 -> rounded m u = m).
Proof.
  intros Hm Hu. unfold rounded.
  pose proof (Z.div_mod m u ltac:(lia)) as E.
  pose proof (Z.mod_pos_bound m u Hu) as Hr.
  split.
  - destruct (2 * (m mod u) <? u); [nia|].
    destruct (u <? 2 * (m mod u)); [nia|].
    destruct (Z.even (m / u)); nia.
  - intros E0. rewrite E0 in *.
    replace (2 * 0 <? u) with true by (symmetry; apply Z.ltb_lt; lia). nia.
Qed.



(** Rounding does not step below a double that lies below. *)
Lemma round_double_above d x :
  is_double d = true -> d <= x -> d <= round_double x.
Proof.
  intros Hd Hle. unfold round_double.
  pose proof (ulp_pos x) as Hu. pose proof (ulp_pos d) as Hud.
  destruct (rounded_bounds (Z.abs x) (ulp x) (Z.abs_nonneg x) Hu) as [[Hlo Hhi] Hex].
  pose proof (Z.div_mod (Z.abs x) (ulp x) ltac:(lia)) as Edm.
  pose proof (Z.mod_pos_bound (Z.abs x) (ulp x) Hu) as Hr.
  assert (Hq : 0 <= Z.abs x / ulp x) by (apply Z.div_pos; lia).
  assert (Hfl : 0 <= Z.abs x - Z.abs x mod ulp x) by nia.
  apply is_double_spec in Hd. destruct Hd as [k Hk].
  destruct (Z.lt_trichotomy x 0) as [Hx|[Hx|Hx]].
  - (* both negative: the magnitude of [d] is a multiple of the unit of [x] *)
    replace (Z.sgn x) with (-1) by (destruct x; simpl; lia).
    assert (Habs : Z.abs x <= Z.abs d) by lia.
    destruct (ulp_divide x d Habs) as (j & Hj & Ej).
    assert (Ed : Z.abs d = (k * j) * ulp x) by (rewrite Hk, Ej; ring).
    destruct (Z.eq_dec (Z.abs x mod ulp x) 0) as [E0|E0].
    + rewrite (Hex E0). lia.
    + assert (Z.abs x / ulp x < k * j) by nia.
      assert (rounded (Z.abs x) (ulp x) <= Z.abs d) by nia.
      lia.
  - subst x. simpl. lia.
  - replace (Z.sgn x) with 1 by (destruct x; simpl; lia).
    destruct (Z.le_gt_cases d 0) as [Hd0|Hd0]; [lia|].
    assert (Habs : Z.abs d <= Z.abs x) by lia.
    destruct (ulp_divide d x Habs) as (j & Hj & Ej).
    destruct (Z.eq_dec j 1) as [J1|J1].
    + (* same unit *)
      assert (Ed : Z.abs d = k * ulp x) by (rewrite Hk, Ej, J1; ring).
      assert (k <= Z.abs x / ulp x) by (apply Z.div_le_lower_bound; lia).
      nia.
    + (* [d] lies in a lower binade *)
      assert (H1 : 1 < ulp x) by nia.
      pose proof (ulp_lower x H1) as Hlow.
      pose proof (ulp_upper d) as Hup.
      assert (2 <= j).
      { destruct (Z.eq_dec j 2); [lia|].
        assert (2 < j \/ j < 2) by lia. lia. }
      assert (Z.abs d < 2 ^ 52 * ulp x) by nia.
      assert (2 ^ 52 <= Z.abs x / ulp x) by (apply Z.div_le_lower_bound; lia).
      nia.
Qed.




Lemma js_add_ge a b : 0 <= b -> a <= js_add a b.
Proof.
  intros H. unfold js_add.
  destruct (is_double a) eqn:Ha; simpl; [|lia].
  destruct (is_double b); [|lia].
  apply round_double_above; [exact Ha | lia].
Qed.


End Rounding.

(** ** The [Map] operations *)

Section MapFacts.

Import JsMap.

Lemma get_set_same k v m : get k (set k v m) = Some v.
Proof.
  induction m as [|[k' v'] m IH]; simpl.
  - now rewrite String.eqb_refl.
  - destruct (String.eqb k' k) eqn:E; simpl.
    + now rewrite String.eqb_refl.
    + now rewrite E.
Qed.

Lemma get_set_other k k' v m : k' <> k -> get k' (set k v m) = get k' m.
Proof.
  intros Hne. induction m as [|[k0 v0] m IH]; simpl.
  - destruct (String.eqb_spec k k'); congruence.
  - destruct (String.eqb_spec k0 k); simpl.
    + subst k0. destruct (String.eqb_spec k k'); congruence.
    + now rewrite IH.
Qed.

Lemma get_In k v m : get k m = Some v -> In (k, v) m.
Proof.
  induction m as [|[k' v'] m IH]; simpl; [discriminate|].
  destruct (String.eqb_spec k' k); intros H.
  - left. congruence.
  - right. auto.
Qed.

Lemma In_keys k v (m : Store) : In (k, v) m -> In k (keys m).
Proof. intros H. apply (in_map fst) in H. exact H. Qed.

Lemma In_get k v m : NoDup (keys m) -> In (k, v) m -> get k m = Some v.
Proof.
  induction m as [|[k' v'] m IH]; simpl; [tauto|].
  intros Hnd [H|H].
  - inversion H; subst. now rewrite String.eqb_refl.
  - inversion Hnd as [|? ? Hnotin Hnd']; subst.
    destruct (String.eqb_spec k' k).
    + subst. exfalso. apply Hnotin. eapply In_keys; eauto.
    + auto.
Qed.

Lemma keys_set_present k v v' m :
  get k m = Some v' -> keys (set k v m) = keys m.
Proof.
  induction m as [|[k0 v0] m IH]; simpl; [discriminate|].
  destruct (String.eqb_spec k0 k); simpl; intros H.
  - now subst.
  - now rewrite IH.
Qed.

Lemma In_set k v m x : In x (set k v m) -> x = (k, v) \/ In x m.
Proof.
  induction m as [|[k0 v0] m IH]; simpl.
  - intros [H|[]]. now left.
  - destruct (String.eqb k0 k); simpl; intuition auto.
Qed.

Lemma In_keys_set k v m x : In x (keys (set k v m)) -> x = k \/ In x (keys m).
Proof.
  induction m as [|[k0 v0] m IH]; simpl.
  - intros [H|[]]. now left.
  - destruct (String.eqb k0 k); simpl; intuition auto.
Qed.

Lemma NoDup_keys_set k v m : NoDup (keys m) -> NoDup (keys (set k v m)).
Proof.
  induction m as [|[k0 v0] m IH]; simpl; intros Hnd.
  - constructor; [intros [] | constructor].
  - inversion Hnd as [|? ? Hnotin Hnd']; subst.
    destruct (String.eqb_spec k0 k); simpl.
    + subst. now constructor.
    + constructor; auto.
      intros Hin. apply In_keys_set in Hin. destruct Hin; congruence.
Qed.

Lemma In_remove k m x : In x (remove k m) -> In x m.
Proof.
  induction m as [|[k0 v0] m IH]; simpl; [tauto|].
  destruct (String.eqb k0 k); simpl; intuition.
Qed.

Lemma NoDup_keys_remove k m : NoDup (keys m) -> NoDup (keys (remove k m)).
Proof.
  induction m as [|[k0 v0] m IH]; simpl; intros Hnd; [constructor|].
  inversion Hnd as [|? ? Hnotin Hnd']; subst.
  destruct (String.eqb k0 k); simpl; auto.
  constructor; auto.
  intros Hin. apply Hnotin.
  apply in_map_iff in Hin. destruct Hin as [[k1 v1] [E Hin]].
  apply In_remove in Hin. simpl in E. subst. eapply In_keys; eauto.
Qed.

Lemma Map_ok_nil : Map_ok [].
Proof. split; [constructor | intros ? ? []]. Qed.

Lemma Map_ok_set k v m : Map_ok m -> id v = k -> Map_ok (set k v m).
Proof.
  intros [Hnd Hid] Hv. split.
  - now apply NoDup_keys_set.
  - intros k' r Hin. apply In_set in Hin. destruct Hin as [E|Hin].
    + congruence.
    + auto.
Qed.

Lemma Map_ok_remove k m : Map_ok m -> Map_ok (remove k m).
Proof.
  intros [Hnd Hid]. split.
  - now apply NoDup_keys_remove.
  - intros k' r Hin. apply In_remove in Hin. auto.
Qed.

Lemma byCode_In c s r :
  getRedeemCodeByCode c s = Some r -> code r = c /\ exists k, In (k, r) s.
Proof.
  unfold getRedeemCodeByCode, values. intros H.
  apply find_some in H. destruct H as [Hin Hc].
  apply String.eqb_eq in Hc. split; [exact Hc|].
  apply in_map_iff in Hin. destruct Hin as [[k r'] [E Hin]].
  simpl in E. subst. eauto.
Qed.

Lemma byCode_get c s r :
  Map_ok s -> getRedeemCodeByCode c s = Some r -> get (id r) s = Some r.
Proof.
  intros [Hnd Hid] H. apply byCode_In in H. destruct H as [_ [k Hin]].
  rewrite (Hid _ _ Hin). now apply In_get.
Qed.


End MapFacts.

(** ** More facts on the [Map] operations *)

Lemma get_None_not_key k (s : Store) :
  JsMap.get k s = None <-> ~ In k (JsMap.keys s).
Proof.
  induction s as [|[k0 v0] s IH]; simpl.
  - tauto.
  - destruct (String.eqb_spec k0 k); [|tauto].
    split; [discriminate | intros H; exfalso; apply H; now left].
Qed.

Lemma has_get k (s : Store) :
  JsMap.has k s = match JsMap.get k s with Some _ => true | None => false end.
Proof.
  induction s as [|[k0 v0] s IH]; simpl; [reflexivity|].
  destruct (String.eqb k0 k); simpl; auto.
Qed.

Lemma remove_absent k (s : Store) : JsMap.get k s = None -> JsMap.remove k s = s.
Proof.
  induction s as [|[k0 v0] s IH]; simpl; [reflexivity|].
  destruct (String.eqb k0 k); [discriminate|].
  intros H. now rewrite IH.
Qed.

Lemma get_remove_other k k' (s : Store) :
  k' <> k -> JsMap.get k' (JsMap.remove k s) = JsMap.get k' s.
Proof.
  intros Hne. induction s as [|[k0 v0] s IH]; simpl; [reflexivity|].
  destruct (String.eqb_spec k0 k); simpl.
  - subst. destruct (String.eqb_spec k k'); congruence.
  - now rewrite IH.
Qed.

Lemma In_remove_neq k (s : Store) k' r :
  NoDup (JsMap.keys s) -> In (k', r) (JsMap.remove k s) -> k' <> k.
Proof.
  induction s as [|[k0 v0] s IH]; simpl; [tauto|].
  intros Hnd. inversion Hnd as [|? ? Hnotin Hnd']; subst.
  destruct (String.eqb_spec k0 k); simpl.
  - subst. intros Hin E. subst. apply Hnotin. eapply In_keys; eauto.
  - intros [E|Hin]; [inversion E; congruence | auto].
Qed.

Lemma get_remove_same k (s : Store) :
  NoDup (JsMap.keys s) -> JsMap.get k (JsMap.remove k s) = None.
Proof.
  intros Hnd. destruct (JsMap.get k (JsMap.remove k s)) eqn:E; [|reflexivity].
  apply get_In in E. now apply In_remove_neq in E.
Qed.

Lemma set_get_same k r (s : Store) : JsMap.get k s = Some r -> JsMap.set k r s = s.
Proof.
  induction s as [|[k0 v0] s IH]; simpl; [discriminate|].
  destruct (String.eqb_spec k0 k).
  - intros E. inversion E. now subst.
  - intros E. now rewrite IH.
Qed.


Lemma byCode_None c s :
  (forall k r, In (k, r) s -> code r <> c) -> getRedeemCodeByCode c s = None.
Proof.
  unfold getRedeemCodeByCode, JsMap.values. intros H.
  induction s as [|[k0 v0] s IH]; simpl; [reflexivity|].
  destruct (String.eqb_spec (code v0) c) as [E|E].
  - exfalso. eapply H; [left; reflexivity | exact E].
  - apply IH. intros k r Hin. apply (H k r). now right.
Qed.

(** ** ASCII text *)

Section Spellings.

Ltac by_cases_on c :=
  destruct c as [[] [] [] [] [] [] [] []]; reflexivity.

Lemma upper_char_idem c : upper_char (upper_char c) = upper_char c.
Proof. by_cases_on c. Qed.

Lemma is_space_upper_char c : is_space (upper_char c) = is_space c.
Proof. by_cases_on c. Qed.

Lemma same_letter_upper a b : same_letter a b -> upper_char a = upper_char b.
Proof.
  intros [E|[[_ E]|[_ E]]]; subst; rewrite ?upper_char_idem; reflexivity.
Qed.

Lemma same_letter_space a b : same_letter a b -> is_space a = is_space b.
Proof.
  intros H. apply same_letter_upper in H.
  rewrite <- (is_space_upper_char a), <- (is_space_upper_char b).
  now rewrite H.
Qed.

Lemma case_variant_upper s t :
  case_variant s t -> ascii_toUpperCase s = ascii_toUpperCase t.
Proof.
  induction 1 as [|a b s t Hab _ IH]; simpl; [reflexivity|].
  now rewrite IH, (same_letter_upper a b Hab).
Qed.

Lemma case_variant_length s t :
  case_variant s t -> String.length s = String.length t.
Proof. induction 1; simpl; congruence. Qed.

Lemma case_variant_ltrim s t :
  case_variant s t -> case_variant (ltrim s) (ltrim t).
Proof.
  induction 1 as [|a b s t Hab Hst IH]; simpl; [constructor|].
  rewrite (same_letter_space a b Hab).
  destruct (is_space b); [exact IH | now constructor].
Qed.

Lemma case_variant_rtrim s t :
  case_variant s t -> case_variant (rtrim s) (rtrim t).
Proof.
  induction 1 as [|a b s t Hab Hst IH]; simpl; [constructor|].
  rewrite (same_letter_space a b Hab).
  inversion IH as [Es Et|a' b' s' t' Hab' Hst' Es Et].
  - destruct (is_space b);
      [constructor | constructor; [assumption | constructor]].
  - constructor; [assumption|]. now constructor.
Qed.

Lemma ltrim_all_space l : all_space l = true -> ltrim l = "".
Proof.
  induction l as [|c l IH]; simpl; [reflexivity|].
  intros H. apply andb_true_iff in H. destruct H as [Hc Hl].
  rewrite Hc. auto.
Qed.

Lemma ltrim_app_l l s : all_space l = true -> ltrim (l ++ s) = ltrim s.
Proof.
  induction l as [|c l IH]; simpl; [reflexivity|].
  intros H. apply andb_true_iff in H. destruct H as [Hc Hl].
  rewrite Hc. auto.
Qed.

Lemma ltrim_app_r s r :
  all_space r = true ->
  exists r', all_space r' = true /\ ltrim (s ++ r) = ltrim s ++ r'.
Proof.
  intros Hr. induction s as [|c s IH]; simpl.
  - exists "". now rewrite ltrim_all_space.
  - destruct (is_space c); [exact IH|].
    exists r. now split.
Qed.

Lemma rtrim_all_space r : all_space r = true -> rtrim r = "".
Proof.
  induction r as [|c r IH]; simpl; [reflexivity|].
  intros H. apply andb_true_iff in H. destruct H as [Hc Hl].
  now rewrite (IH Hl), Hc.
Qed.

Lemma rtrim_app_r s r : all_space r = true -> rtrim (s ++ r) = rtrim s.
Proof.
  intros Hr. induction s as [|c s IH]; simpl.
  - now apply rtrim_all_space.
  - now rewrite IH.
Qed.

Lemma trim_padded s core : padded s core -> ascii_trim s = ascii_trim core.
Proof.
  intros (l & r & Hl & Hr & ->). unfold ascii_trim.
  rewrite (ltrim_app_l l _ Hl).
  destruct (ltrim_app_r core r Hr) as (r' & Hr' & ->).
  now apply rtrim_app_r.
Qed.

Lemma spelling_variant_trim x y :
  spelling_variant x y -> case_variant (ascii_trim x) (ascii_trim y).
Proof.
  intros (cx & cy & Hx & Hy & Hc).
  rewrite (trim_padded _ _ Hx), (trim_padded _ _ Hy).
  unfold ascii_trim. now apply case_variant_rtrim, case_variant_ltrim.
Qed.

Lemma is_ascii_upper_char c :
  is_ascii_char c = true -> is_ascii_char (upper_char c) = true.
Proof. destruct c as [[] [] [] [] [] [] [] []]; intros H; first [exact H | reflexivity]. Qed.

Lemma is_space_is_ascii c : is_space c = true -> is_ascii_char c = true.
Proof. destruct c as [[] [] [] [] [] [] [] []]; intros H; first [exact H | reflexivity]. Qed.

Lemma is_ascii_toUpperCase s :
  is_ascii s = true -> is_ascii (ascii_toUpperCase s) = true.
Proof.
  induction s as [|c s IH]; simpl; [reflexivity|].
  intros H. apply andb_true_iff in H. destruct H as [Hc Hs].
  now rewrite (is_ascii_upper_char c Hc), IH.
Qed.

Lemma is_ascii_ltrim s : is_ascii s = true -> is_ascii (ltrim s) = true.
Proof.
  induction s as [|c s IH]; simpl; [reflexivity|].
  intros H. destruct (is_space c); [|exact H].
  apply andb_true_iff in H. now apply IH.
Qed.

Lemma is_ascii_rtrim s : is_ascii s = true -> is_ascii (rtrim s) = true.
Proof.
  induction s as [|c s IH]; simpl; [reflexivity|].
  intros H. apply andb_true_iff in H. destruct H as [Hc Hs].
  specialize (IH Hs). destruct (rtrim s) as [|c' r].
  - destruct (is_space c); [reflexivity|]. simpl. now rewrite Hc.
  - cbn [is_ascii] in *. now rewrite Hc, IH.
Qed.

Lemma is_ascii_trim s : is_ascii s = true -> is_ascii (ascii_trim s) = true.
Proof. intros H. now apply is_ascii_rtrim, is_ascii_ltrim. Qed.

Lemma all_space_is_ascii s : all_space s = true -> is_ascii s = true.
Proof.
  induction s as [|c s IH]; simpl; [reflexivity|].
  intros H. apply andb_true_iff in H. destruct H as [Hc Hs].
  now rewrite (is_space_is_ascii c Hc), IH.
Qed.

End Spellings.

(** ** The storage methods keep the store a [Map] *)

Lemma Map_ok_increment k s : Map_ok s -> Map_ok (incrementRedeemCodeUsage k s).
Proof.
  intros H. unfold incrementRedeemCodeUsage.
  destruct (JsMap.get k s) as [r|] eqn:E; [|exact H].
  apply Map_ok_set; [exact H|]. simpl.
  destruct H as [_ Hid]. apply Hid. now apply get_In.
Qed.

Lemma Map_ok_create uuid now ins s :
  Map_ok s -> Map_ok (snd (createRedeemCode uuid now ins s)).
Proof. intros H. simpl. now apply Map_ok_set. Qed.

Lemma Map_ok_update k b s : Map_ok s -> Map_ok (snd (updateRedeemCode k b s)).
Proof.
  intros H. unfold updateRedeemCode.
  destruct (JsMap.get k s); simpl; [|exact H].
  now apply Map_ok_set.
Qed.

Lemma Map_ok_delete k s : Map_ok s -> Map_ok (snd (deleteRedeemCode k s)).
Proof. intros H. simpl. now apply Map_ok_remove. Qed.


(** The record a body that passes [parse] is stored as. *)
Lemma postAdminRedeemCode_created a uuid now b s c t v :
  a <> "" ->
  new_code b = Some c -> new_type b = Some t -> new_value b = Some v ->
  new_expiresAt b = None \/ new_expiresAt b = Some None ->
  (forall l, new_usageLimit b = Some l -> is_int32 l = true) ->
  postAdminRedeemCode (Some a) uuid now b s
  = (Created
       {| id := uuid; code := c; type := t; value := v;
          productId := or_null (new_productId b);
          isMasterCode := match new_isMasterCode b with
                          | Some m => m
                          | None => false
                          end;
          isActive := match new_isActive b with
                      | Some m => m
                      | None => true
                      end;
          usageLimit := Some (or_one (new_usageLimit b));
          usageCount := 0; expiresAt := None; createdBy := a;
          createdAt := Some now |},
     JsMap.set uuid
       {| id := uuid; code := c; type := t; value := v;
          productId := or_null (new_productId b);
          isMasterCode := match new_isMasterCode b with
                          | Some m => m
                          | None => false
                          end;
          isActive := match new_isActive b with
                      | Some m => m
                      | None => true
                      end;
          usageLimit := Some (or_one (new_usageLimit b));
          usageCount := 0; expiresAt := None; createdBy := a;
          createdAt := Some now |} s).
Proof.
  intros Ha Hc Ht Hv He Hl.
  unfold postAdminRedeemCode, insertRedeemCodeSchema_parse. simpl.
  apply String.eqb_neq in Ha. rewrite Ha, Hc, Ht, Hv.
  assert (E : match new_usageLimit b with
              | Some l => is_int32 l
              | None => true
              end = true)
    by (destruct (new_usageLimit b) as [l|]; auto).
  destruct He as [He|He]; rewrite He, E; reflexivity.
Qed.

(** ** The redemption route, case by case *)

Section Redemption.

Context {JS : JsStrings}.

Lemma charCount_empty : charCount "" = 0%nat.
Proof. now rewrite charCount_ascii. Qed.

Lemma trim_all_space c : all_space c = true -> trim c = "".
Proof.
  intros H. rewrite trim_ascii by now apply all_space_is_ascii.
  unfold ascii_trim. now rewrite ltrim_all_space.
Qed.

Lemma isLength_nonempty s : isLength_1_100 s = true -> s <> "".
Proof.
  intros H E. subst. unfold isLength_1_100 in H.
  rewrite charCount_empty in H. discriminate.
Qed.

Lemma redeemHandler_outcome now c p s :
  c <> "" -> p <> "" ->
  redeemHandler now (mkRedeemBody (Some c) (Some p)) s = redeemOutcome now c p s.
Proof.
  intros Hc Hp. unfold redeemHandler, redeemOutcome, first_rejection. simpl.
  apply String.eqb_neq in Hc. apply String.eqb_neq in Hp. rewrite Hc, Hp. simpl.
  destruct (getRedeemCodeByCode (toUpperCase c) s) as [r|]; [|reflexivity].
  destruct (isActive r); simpl; [|reflexivity].
  destruct (is_expired r now); simpl; [reflexivity|].
  destruct (limit_reached r); simpl; [reflexivity|].
  destruct (isValidForProduct r p); reflexivity.
Qed.

Lemma postRedeem_cases now b s :
  postRedeem now b s = (ValidationFailed, s) \/
  exists c p, body_code b = Some c /\ body_productId b = Some p /\
    isLength_1_100 (trim c) = true /\ isLength_1_100 (trim p) = true /\
    postRedeem now b s = redeemOutcome now (trim c) (trim p) s.
Proof.
  unfold postRedeem, redeemValidation.
  destruct (body_code b) as [c|]; [|now left].
  destruct (body_productId b) as [p|]; [|now left].
  destruct (isLength_1_100 (trim c)) eqn:Ec; [|now left].
  destruct (isLength_1_100 (trim p)) eqn:Ep; [|now left].
  right. exists c, p. simpl. repeat split; auto.
  apply redeemHandler_outcome; now apply isLength_nonempty.
Qed.

Lemma first_rejection_none r p now :
  first_rejection (Some r) p now = None ->
  isActive r = true /\ is_expired r now = false /\
  limit_reached r = false /\ isValidForProduct r p = true.
Proof.
  unfold first_rejection. simpl.
  destruct (isActive r); simpl; [|discriminate].
  destruct (is_expired r now); simpl; [discriminate|].
  destruct (limit_reached r); simpl; [discriminate|].
  destruct (isValidForProduct r p); simpl; [auto|discriminate].
Qed.

Lemma first_rejection_pass r p now :
  isActive r = true -> is_expired r now = false ->
  limit_reached r = false -> isValidForProduct r p = true ->
  first_rejection (Some r) p now = None.
Proof.
  intros Ha He Hl Hv. unfold first_rejection. simpl.
  now rewrite Ha, He, Hl, Hv.
Qed.

(** The store after a redemption: untouched, or one record's counter
    raised by a record that passed every check. *)
Lemma postRedeem_store now b s :
  (success (fst (postRedeem now b s)) = false /\ snd (postRedeem now b s) = s) \/
  exists c p r, body_code b = Some c /\ body_productId b = Some p /\
    getRedeemCodeByCode (toUpperCase (trim c)) s = Some r /\
    first_rejection (Some r) (trim p) now = None /\
    postRedeem now b s =
      (Redeemed (downloadUrl (value r)) (fileName (value r))
                (if isMasterCode r then "master" else "product"),
       incrementRedeemCodeUsage (id r) s).
Proof.
  destruct (postRedeem_cases now b s) as [E|(c & p & Hc & Hp & _ & _ & E)].
  - left. now rewrite E.
  - rewrite E. unfold redeemOutcome.
    destruct (getRedeemCodeByCode (toUpperCase (trim c)) s) as [r|] eqn:Ef;
      [|now left].
    destruct (first_rejection (Some r) (trim p) now) eqn:Er; [now left|].
    right. exists c, p, r. auto.
Qed.

Lemma Map_ok_step q s : Map_ok s -> Map_ok (step q s).
Proof.
  intros H. destruct q as [a u now b|k b|k|now b]; simpl.
  - unfold postAdminRedeemCode.
    destruct (or_null a) as [a'|]; [|exact H].
    destruct (insertRedeemCodeSchema_parse b a'); [|exact H].
    simpl. now apply Map_ok_set.
  - unfold putAdminRedeemCode.
    pose proof (Map_ok_update k b s H) as H'.
    destruct (updateRedeemCode k b s) as [[r|] s']; exact H'.
  - unfold deleteAdminRedeemCode. simpl.
    destruct (JsMap.has k s); simpl; now apply Map_ok_remove.
  - destruct (postRedeem_store now b s) as [[_ E]|(c & p & r & _ & _ & _ & _ & E)];
      rewrite E; [exact H|].
    simpl. now apply Map_ok_increment.
Qed.

Lemma Map_ok_run qs : Map_ok (run qs).
Proof.
  unfold run. generalize (@nil (string * RedeemCode)) Map_ok_nil.
  induction qs as [|q qs IH]; simpl; intros s H; [exact H|].
  apply IH. now apply Map_ok_step.
Qed.

Lemma redeemResponse_outcome now c p s :
  isLength_1_100 (trim c) = true -> isLength_1_100 (trim p) = true ->
  postRedeem now (mkRedeemBody (Some c) (Some p)) s
  = redeemOutcome now (trim c) (trim p) s.
Proof.
  intros Hc Hp. unfold postRedeem, redeemValidation. simpl.
  rewrite Hc, Hp. simpl.
  apply redeemHandler_outcome; now apply isLength_nonempty.
Qed.

End Redemption.

Lemma Map_ok_shop : Map_ok shop.
Proof.
  split.
  - repeat constructor; simpl; intuition discriminate.
  - intros k r H. simpl in H.
    repeat (destruct H as [H|H]; [inversion H; reflexivity|]). contradiction.
Qed.

(** ** Keeping the usage-limit invariant *)





Section LimitInvariant.

Context {JS : JsStrings}.




End LimitInvariant.



(** ** C2: the order of the checks *)

Section CheckOrder.

Context {JS : JsStrings}.

(** C2: the route turns an attempt down for the first reason, in the order
    NotFound, Inactive, Expired, UsageLimitReached, ScopeMismatch, whose
    check fires, and accepts when none does; a code that is both switched
    off and expired is reported as inactive. *)
Theorem redeem_check_order now c p s :
  isLength_1_100 (trim c) = true -> isLength_1_100 (trim p) = true ->
  match first_rejection (lookup c s) (trim p) now with
  | Some reason => redeemResponse now c p s = Rejected reason
  | None => success (redeemResponse now c p s) = true
  end /\
  (forall r, lookup c s = Some r ->
     isActive r = false -> is_expired r now = true ->
     redeemResponse now c p s = Rejected Inactive).
Proof.
  intros Hc Hp. unfold redeemResponse, lookup.
  rewrite (redeemResponse_outcome now c p s Hc Hp). unfold redeemOutcome.
  destruct (getRedeemCodeByCode (toUpperCase (trim c)) s) as [r|] eqn:Ef.
  - split.
    + destruct (first_rejection (Some r) (trim p) now); reflexivity.
    + intros r' Er Ha _. inversion Er; subst r'.
      unfold first_rejection. simpl. now rewrite Ha.
  - split; [reflexivity | discriminate].
Qed.

End CheckOrder.

Lemma redeem_check_order_witness :
  redeemResponse 2000 " old1 " "Y" shop = Rejected Inactive.
Proof.
  apply (proj2 (redeem_check_order (JS:=ascii_strings) 2000 " old1 " "Y" shop
                  eq_refl eq_refl) old1);
    reflexivity.
Defined.

(** ** C3: what a redemption writes *)

Section SideEffects.

Context {JS : JsStrings}.


End SideEffects.



(** ** C9: master codes *)

Section MasterCodes.

Context {JS : JsStrings}.

(** C9: when the record found for the submitted text is a master code that
    is active, not expired and under its limit, the route answers with
    success, the record's [downloadUrl] and [fileName] and the tag
    ["master"], whatever product id the body names. *)
Theorem master_code_universal now c p s r :
  isLength_1_100 (trim c) = true -> isLength_1_100 (trim p) = true ->
  lookup c s = Some r ->
  isMasterCode r = true -> isActive r = true ->
  is_expired r now = false -> limit_reached r = false ->
  redeemResponse now c p s
  = Redeemed (downloadUrl (value r)) (fileName (value r)) "master".
Proof.
  intros Hc Hp Hf Hm Ha He Hl. unfold redeemResponse, lookup in *.
  rewrite (redeemResponse_outcome now c p s Hc Hp). unfold redeemOutcome.
  rewrite Hf, first_rejection_pass; auto.
  - simpl. now rewrite Hm.
  - unfold isValidForProduct. now rewrite Hm.
Qed.

End MasterCodes.

Lemma master_code_universal_witness :
  redeemResponse 2000 "Master1" "any-product" shop
  = Redeemed (Some "https://cdn.example/pack.zip") (Some "pack.zip") "master".
Proof.
  apply (master_code_universal 2000 "Master1" "any-product" shop master1);
    reflexivity.
Defined.

(** ** C10: the expiry boundary *)

Section Expiry.

Context {JS : JsStrings}.

(** C10: the expiry test is strict.  At the instant [now = expiresAt] an
    attempt that passes the other checks succeeds, and the route answers
    "expired" only when [expiresAt] lies strictly before [now]. *)
Theorem expiry_is_strict now c p s r :
  isLength_1_100 (trim c) = true -> isLength_1_100 (trim p) = true ->
  lookup c s = Some r ->
  (expiresAt r = Some now -> isActive r = true -> limit_reached r = false ->
   isValidForProduct r (trim p) = true ->
   success (redeemResponse now c p s) = true) /\
  (redeemResponse now c p s = Rejected Expired ->
   exists e, expiresAt r = Some e /\ e < now).
Proof.
  intros Hc Hp Hf. unfold redeemResponse, lookup in *.
  rewrite (redeemResponse_outcome now c p s Hc Hp). unfold redeemOutcome.
  rewrite Hf. split.
  - intros He Ha Hl Hv.
    rewrite first_rejection_pass; auto.
    unfold is_expired. rewrite He. apply Z.ltb_irrefl.
  - unfold first_rejection. simpl.
    destruct (isActive r); simpl; [|discriminate].
    unfold is_expired.
    destruct (expiresAt r) as [e|]; simpl.
    + destruct (Z.ltb_spec e now); simpl.
      * intros _. eauto.
      * destruct (limit_reached r); simpl; [discriminate|].
        destruct (isValidForProduct r (trim p)); discriminate.
    + destruct (limit_reached r); simpl; [discriminate|].
      destruct (isValidForProduct r (trim p)); discriminate.
Qed.

End Expiry.

Lemma expiry_is_strict_witness :
  success (redeemResponse 5000 "MASTER1" "X" shop) = true /\
  exists e, expiresAt master1 = Some e /\ e < 5001.
Proof.
  split.
  - apply (proj1 (expiry_is_strict (JS:=ascii_strings) 5000 "MASTER1" "X" shop
                    master1 eq_refl eq_refl eq_refl)); reflexivity.
  - apply (proj2 (expiry_is_strict (JS:=ascii_strings) 5001 "MASTER1" "X" shop
                    master1 eq_refl eq_refl eq_refl)). reflexivity.
Defined.

(** ** C4: updates and the counter *)

(** An update whose body has no [usageCount] keeps the counter. *)
Lemma update_without_counter k b s r r' s' :
  upd_usageCount b = None -> JsMap.get k s = Some r ->
  updateRedeemCode k b s = (Some r', s') -> usageCount r' = usageCount r.
Proof.
  intros Hb Hg. unfold updateRedeemCode. rewrite Hg, Hb.
  intros E. inversion E. reflexivity.
Qed.

(** C4 (the code departs from the claim): the update route hands the raw
    body to [updateRedeemCode], whose spread copies a [usageCount] property
    into the record.  The body [{ "usageCount": 7 }] sent for the code
    ["id-2"], whose counter is 1, leaves the stored counter at 7. *)
Theorem update_overwrites_usageCount :
  option_map usageCount (JsMap.get "id-2" shop) = Some 1 /\
  fst (putAdminRedeemCode "id-2" counter_body shop)
    = Updated (with_usageCount spent1 7) /\
  option_map usageCount
    (JsMap.get "id-2" (snd (putAdminRedeemCode "id-2" counter_body shop)))
    = Some 7.
Proof. repeat split. Qed.

(** ** C6: creation and duplicates *)

(** A created record carries the generated id and a counter of 0, and is
    filed under that id. *)
Lemma create_id_and_counter uuid now ins s :
  id (fst (createRedeemCode uuid now ins s)) = uuid /\
  usageCount (fst (createRedeemCode uuid now ins s)) = 0 /\
  JsMap.get uuid (snd (createRedeemCode uuid now ins s))
    = Some (fst (createRedeemCode uuid now ins s)).
Proof. simpl. repeat split. apply get_set_same. Qed.

(** C6 (the code departs from the claim): [createRedeemCode] never looks
    for an existing token.  Creating ["SAVE20"] in a store that already
    holds a code ["SAVE20"] answers 201 and appends a second record with the
    same token; a lookup by token keeps finding the older one. *)
Theorem create_accepts_duplicate_code :
  getRedeemCodeByCode "SAVE20" shop = Some spent1 /\
  exists r,
    postAdminRedeemCode (Some "admin-1") "id-7" 50 save20_body shop
      = (Created r, (shop ++ [("id-7", r)])%list) /\
    code r = "SAVE20" /\ id r = "id-7" /\ usageCount r = 0 /\
    getRedeemCodeByCode "SAVE20" (shop ++ [("id-7", r)])%list = Some spent1.
Proof.
  split; [reflexivity|]. eexists. split; [reflexivity|]. repeat split.
Qed.

(** ** C8: what creation validates *)

(** C8 (amended): for a signed-in admin, creation answers with a validation
    error and leaves the store as it was when the body lacks [code], [type]
    or [value], when it carries a text as [expiresAt], or when its
    [usageLimit] lies outside the 32-bit range.  Every other body is
    stored, whatever its scope properties, the sign of its limit and its
    payload. *)
Theorem create_validation a uuid now b s :
  a <> "" ->
  (new_code b = None \/ new_type b = None \/ new_value b = None ->
   postAdminRedeemCode (Some a) uuid now b s = (InvalidData, s)) /\
  ((exists text, new_expiresAt b = Some (Some text)) ->
   postAdminRedeemCode (Some a) uuid now b s = (InvalidData, s)) /\
  ((exists l, new_usageLimit b = Some l /\ (l < - 2 ^ 31 \/ 2 ^ 31 - 1 < l)) ->
   postAdminRedeemCode (Some a) uuid now b s = (InvalidData, s)) /\
  (forall c t v,
     new_code b = Some c -> new_type b = Some t -> new_value b = Some v ->
     new_expiresAt b = None \/ new_expiresAt b = Some None ->
     (forall l, new_usageLimit b = Some l -> - 2 ^ 31 <= l <= 2 ^ 31 - 1) ->
     exists r,
       postAdminRedeemCode (Some a) uuid now b s
         = (Created r, JsMap.set uuid r s) /\
       code r = c /\ type r = t /\ value r = v /\
       productId r = or_null (new_productId b) /\
       isMasterCode r = match new_isMasterCode b with
                        | Some m => m
                        | None => false
                        end /\
       usageLimit r = Some (or_one (new_usageLimit b)) /\
       usageCount r = 0 /\ expiresAt r = None).
Proof.
  intros Ha. pose proof Ha as Ha'. apply String.eqb_neq in Ha'.
  split; [|split; [|split]].
  - intros H. unfold postAdminRedeemCode, insertRedeemCodeSchema_parse. simpl.
    rewrite Ha'.
    destruct H as [H|[H|H]]; rewrite H; try reflexivity.
    + now destruct (new_code b).
    + destruct (new_code b); [|reflexivity]. now destruct (new_type b).
  - intros [text H].
    unfold postAdminRedeemCode, insertRedeemCodeSchema_parse. simpl.
    rewrite Ha', H.
    now destruct (new_code b), (new_type b), (new_value b).
  - intros (l & H & Hl).
    unfold postAdminRedeemCode, insertRedeemCodeSchema_parse. simpl.
    rewrite Ha', H.
    assert (E : is_int32 l = false).
    { unfold is_int32. apply andb_false_iff.
      destruct Hl as [Hl|Hl]; [left; apply Z.leb_gt | right; apply Z.leb_gt];
        exact Hl. }
    rewrite E.
    destruct (new_code b), (new_type b), (new_value b); try reflexivity.
    now destruct (new_expiresAt b) as [[e|]|].
  - intros c t v Hc Ht Hv He Hl.
    rewrite (postAdminRedeemCode_created a uuid now b s c t v Ha Hc Ht Hv He).
    + eexists. split; [reflexivity|]. repeat split.
    + intros l E. specialize (Hl l E). unfold is_int32.
      apply andb_true_iff. split; apply Z.leb_le; lia.
Qed.

(** C8, as stated, fails: a body that sets the master flag and a product
    id, a limit of -3 and an empty download payload is stored as it is. *)
Lemma create_accepts_unchecked_body :
  exists r,
    postAdminRedeemCode (Some "admin-1") "id-8" 60 odd_body []
      = (Created r, [("id-8", r)]) /\
    isMasterCode r = true /\ productId r = Some "X" /\
    usageLimit r = Some (-3) /\
    type r = "download" /\
    downloadUrl (value r) = None /\ fileName (value r) = None.
Proof. eexists. split; [reflexivity|]. repeat split. Qed.

Lemma create_validation_witness :
  postAdminRedeemCode (Some "admin-1") "id-8" 60 no_type_body shop
    = (InvalidData, shop) /\
  postAdminRedeemCode (Some "admin-1") "id-8" 60 form_body shop
    = (InvalidData, shop) /\
  postAdminRedeemCode (Some "admin-1") "id-8" 60 huge_limit_body shop
    = (InvalidData, shop) /\
  exists r,
    postAdminRedeemCode (Some "admin-1") "id-8" 60 odd_body shop
      = (Created r, JsMap.set "id-8" r shop) /\
    isMasterCode r = true /\ productId r = Some "X" /\
    usageLimit r = Some (-3) /\ value r = mkPayload None None.
Proof.
  assert (Ha : "admin-1" <> "") by discriminate.
  split; [|split; [|split]].
  - apply (proj1 (create_validation "admin-1" "id-8" 60 no_type_body shop Ha)).
    right. left. reflexivity.
  - apply (proj1 (proj2 (create_validation "admin-1" "id-8" 60 form_body shop
                           Ha))).
    exists "". reflexivity.
  - apply (proj1 (proj2 (proj2 (create_validation "admin-1" "id-8" 60
                                  huge_limit_body shop Ha)))).
    exists (2 ^ 31). split; [reflexivity|]. right. reflexivity.
  - destruct (proj2 (proj2 (proj2 (create_validation "admin-1" "id-8" 60
                                     odd_body shop Ha)))
                "ODD1" "download" (mkPayload None None)
                eq_refl eq_refl eq_refl (or_introl eq_refl))
      as (r & E & _ & _ & Hv & Hp & Hm & Hl & _).
    + intros l El. inversion El. subst l. split; discriminate.
    + exists r. repeat split; assumption.
Defined.

(** ** C7: codes without a limit *)





Section Repeated.

Context {JS : JsStrings}.




End Repeated.



(** ** C5: spellings of a token *)

Section Spelling.

Context {JS : JsStrings}.

(** The answer of the route depends on the submitted code only through its
    trimmed text: through whether that text passes [isLength], and through
    its upper-case form. *)
Lemma postRedeem_canonical now x y p s :
  isLength_1_100 (trim x) = isLength_1_100 (trim y) ->
  toUpperCase (trim x) = toUpperCase (trim y) ->
  postRedeem now (mkRedeemBody (Some x) p) s
  = postRedeem now (mkRedeemBody (Some y) p) s.
Proof.
  intros HL HU. unfold postRedeem, redeemValidation. simpl.
  destruct p as [p|]; [|reflexivity].
  rewrite HL.
  destruct (isLength_1_100 (trim y)) eqn:Ey; [|reflexivity].
  destruct (isLength_1_100 (trim p)) eqn:Ep; [|reflexivity]. simpl.
  pose proof (isLength_nonempty _ Ey) as Hy.
  pose proof (isLength_nonempty _ HL) as Hx.
  pose proof (isLength_nonempty _ Ep) as Hp.
  rewrite !redeemHandler_outcome by assumption.
  unfold redeemOutcome. now rewrite HU.
Qed.

(** On ASCII text, spellings that differ in case or surrounding white
    space have the same trimmed length and the same upper-case form. *)
Lemma spelling_variant_canonical x y :
  is_ascii x = true -> is_ascii y = true -> spelling_variant x y ->
  isLength_1_100 (trim x) = isLength_1_100 (trim y) /\
  toUpperCase (trim x) = toUpperCase (trim y).
Proof.
  intros Hx Hy H. apply spelling_variant_trim in H.
  rewrite (trim_ascii x Hx), (trim_ascii y Hy).
  pose proof (is_ascii_trim x Hx) as Htx.
  pose proof (is_ascii_trim y Hy) as Hty.
  unfold isLength_1_100.
  rewrite (charCount_ascii _ Htx), (charCount_ascii _ Hty).
  rewrite (toUpperCase_ascii _ Htx), (toUpperCase_ascii _ Hty).
  now rewrite (case_variant_length _ _ H), (case_variant_upper _ _ H).
Qed.

(** C5 (amended): the redemption route trims and upper-cases the submitted
    text and looks the result up by exact comparison.  Hence two texts with
    the same trimmed upper-case form (and the same verdict of the length
    check) get the same answer and leave the same store; so do two ASCII
    texts that differ only in letter case or surrounding white space; and
    an ASCII code stored in trimmed upper case is found by every such
    spelling of its token. *)
Theorem redeem_spelling_insensitive :
  (forall now x y p s,
     isLength_1_100 (trim x) = isLength_1_100 (trim y) ->
     toUpperCase (trim x) = toUpperCase (trim y) ->
     postRedeem now (mkRedeemBody (Some x) p) s
     = postRedeem now (mkRedeemBody (Some y) p) s) /\
  (forall now x y p s,
     is_ascii x = true -> is_ascii y = true -> spelling_variant x y ->
     postRedeem now (mkRedeemBody (Some x) p) s
     = postRedeem now (mkRedeemBody (Some y) p) s) /\
  (forall x c s r,
     is_ascii x = true -> is_ascii c = true -> spelling_variant x c ->
     toUpperCase c = c -> trim c = c ->
     getRedeemCodeByCode c s = Some r -> lookup x s = Some r).
Proof.
  split; [|split].
  - intros. now apply postRedeem_canonical.
  - intros now x y p s Hx Hy H.
    destruct (spelling_variant_canonical x y Hx Hy H) as [HL HU].
    now apply postRedeem_canonical.
  - intros x c s r Hx Hc H Hu Ht Hf.
    destruct (spelling_variant_canonical x c Hx Hc H) as [_ HU].
    unfold lookup. now rewrite HU, Ht, Hu.
Qed.

End Spelling.

(** C5, as stated, fails: the storage keeps a token as it is submitted.
    The token ["save20"] is stored in lower case, and since the redemption
    route upper-cases what it looks for, no spelling redeems it. *)
Lemma create_keeps_submitted_spelling :
  option_map code
    (JsMap.get "id-5"
       (snd (postAdminRedeemCode (Some "admin-1") "id-5" 70 lower_body [])))
    = Some "save20" /\
  toUpperCase "save20" = "SAVE20" /\
  redeemResponse 80 "save20" "X"
    (snd (postAdminRedeemCode (Some "admin-1") "id-5" 70 lower_body []))
    = Rejected NotFound /\
  redeemResponse 80 "SAVE20" "X"
    (snd (postAdminRedeemCode (Some "admin-1") "id-5" 70 lower_body []))
    = Rejected NotFound.
Proof. repeat split. Qed.

Lemma redeem_spelling_insensitive_witness :
  postRedeem 2000 (mkRedeemBody (Some "  master1 ") (Some "X")) shop
  = postRedeem 2000 (mkRedeemBody (Some "MASTER1") (Some "X")) shop /\
  postRedeem 2000 (mkRedeemBody (Some "Old1") (Some "X")) shop
  = postRedeem 2000 (mkRedeemBody (Some "oLD1 ") (Some "X")) shop /\
  lookup " Save20" shop = Some spent1.
Proof.
  assert (H1 : spelling_variant "  master1 " "MASTER1").
  { exists "master1", "MASTER1". split; [|split].
    - exists "  ", " ". repeat split.
    - exists "", "". repeat split.
    - same_letters. }
  assert (H2 : spelling_variant " Save20" "SAVE20").
  { exists "Save20", "SAVE20". split; [|split].
    - exists " ", "". repeat split.
    - exists "", "". repeat split.
    - same_letters. }
  split; [|split].
  - apply (proj1 (proj2 (redeem_spelling_insensitive (JS:=ascii_strings)))
             2000 "  master1 " "MASTER1" (Some "X") shop eq_refl eq_refl H1).
  - apply (proj1 (redeem_spelling_insensitive (JS:=ascii_strings))
             2000 "Old1" "oLD1 " (Some "X") shop eq_refl eq_refl).
  - apply (proj2 (proj2 (redeem_spelling_insensitive (JS:=ascii_strings)))
             " Save20" "SAVE20" shop spent1 eq_refl eq_refl H2);
      reflexivity.
Defined.


(** * Further properties of the redeem-code engine *)

(** ** Scope of product codes *)

Section ProductScope.

Context {JS : JsStrings}.

(** A code that is not a master code is never redeemed against a product
    other than its own (in particular never when it has no product at all);
    when it passes the earlier checks the answer is the scope mismatch. *)
Theorem product_code_scope now c p s r :
  isLength_1_100 (trim c) = true -> isLength_1_100 (trim p) = true ->
  lookup c s = Some r ->
  isMasterCode r = false -> productId r <> Some (trim p) ->
  success (redeemResponse now c p s) = false /\
  (isActive r = true -> is_expired r now = false -> limit_reached r = false ->
   redeemResponse now c p s = Rejected ScopeMismatch).
Proof.
  intros Hc Hp Hf Hm Hpid. unfold redeemResponse, lookup in *.
  rewrite (redeemResponse_outcome now c p s Hc Hp). unfold redeemOutcome.
  rewrite Hf.
  assert (Hv : isValidForProduct r (trim p) = false).
  { unfold isValidForProduct. rewrite Hm. simpl.
    destruct (productId r) as [q|]; [|reflexivity].
    destruct (String.eqb_spec q (trim p)); [subst; congruence | reflexivity]. }
  split.
  - destruct (first_rejection (Some r) (trim p) now) eqn:E; [reflexivity|].
    apply first_rejection_none in E. destruct E as (_ & _ & _ & E). congruence.
  - intros Ha He Hl. unfold first_rejection. simpl.
    now rewrite Ha, He, Hl, Hv.
Qed.

End ProductScope.

Lemma product_code_scope_witness :
  success (redeemResponse 50 "save20" "Y" shop) = false /\
  redeemResponse 50 "free1" "Y" [("id-4", free1)] = Rejected ScopeMismatch.
Proof.
  split.
  - apply (proj1 (product_code_scope (JS:=ascii_strings) 50 "save20" "Y" shop
                    spent1 eq_refl eq_refl eq_refl eq_refl
                    ltac:(discriminate))).
  - apply (proj2 (product_code_scope (JS:=ascii_strings) 50 "free1" "Y"
                    [("id-4", free1)] free1
                    eq_refl eq_refl eq_refl eq_refl ltac:(discriminate)));
      reflexivity.
Defined.

(** ** The cap on successful redemptions *)

Section Capped.

Context {JS : JsStrings}.


End Capped.


(** ** From creation to redemption *)

Section CreatedCode.

Context {JS : JsStrings}.


End CreatedCode.


(** ** The deletion route *)

(** Deleting an id that is not stored answers "not found" and leaves the
    store as it was; deleting a stored id removes that record and no
    other. *)
Theorem delete_route k s :
  NoDup (JsMap.keys s) ->
  (JsMap.get k s = None -> deleteAdminRedeemCode k s = (CodeNotFound, s)) /\
  (forall r, JsMap.get k s = Some r ->
     fst (deleteAdminRedeemCode k s) = Deleted /\
     JsMap.get k (snd (deleteAdminRedeemCode k s)) = None /\
     forall k', k' <> k ->
       JsMap.get k' (snd (deleteAdminRedeemCode k s)) = JsMap.get k' s).
Proof.
  intros Hnd. unfold deleteAdminRedeemCode, deleteRedeemCode, JsMap.delete.
  rewrite has_get. split.
  - intros E. rewrite E. now rewrite remove_absent.
  - intros r E. rewrite E. simpl. repeat split.
    + now apply get_remove_same.
    + intros k' Hne. now apply get_remove_other.
Qed.

Lemma delete_route_witness :
  deleteAdminRedeemCode "id-0" shop = (CodeNotFound, shop) /\
  fst (deleteAdminRedeemCode "id-2" shop) = Deleted /\
  JsMap.get "id-2" (snd (deleteAdminRedeemCode "id-2" shop)) = None /\
  forall k', k' <> "id-2" ->
    JsMap.get k' (snd (deleteAdminRedeemCode "id-2" shop)) = JsMap.get k' shop.
Proof.
  split.
  - apply (proj1 (delete_route "id-0" shop (proj1 Map_ok_shop))). reflexivity.
  - apply (proj2 (delete_route "id-2" shop (proj1 Map_ok_shop)) spent1).
    reflexivity.
Defined.

Section DeletedCode.

Context {JS : JsStrings}.

(** Once the only code bearing a token is deleted, every redemption whose
    submitted text the route trims and upper-cases to that token is
    answered "not found". *)
Theorem deleted_code_not_found k s r now c p :
  NoDup (JsMap.keys s) ->
  JsMap.get k s = Some r ->
  (forall k' r', In (k', r') s -> code r' = code r -> k' = k) ->
  isLength_1_100 (trim c) = true -> isLength_1_100 (trim p) = true ->
  toUpperCase (trim c) = code r ->
  redeemResponse now c p (snd (deleteAdminRedeemCode k s)) = Rejected NotFound.
Proof.
  intros Hnd Hg Huniq Hc Hp Hcanon.
  unfold redeemResponse. rewrite (redeemResponse_outcome _ _ _ _ Hc Hp).
  unfold redeemOutcome. rewrite Hcanon.
  assert (E : snd (deleteAdminRedeemCode k s) = JsMap.remove k s).
  { unfold deleteAdminRedeemCode, deleteRedeemCode, JsMap.delete.
    now destruct (JsMap.has k s). }
  rewrite E, byCode_None; [reflexivity|].
  intros k' r' Hin Hcode.
  pose proof (In_remove_neq _ _ _ _ Hnd Hin) as Hne.
  apply In_remove in Hin. apply Hne. eauto.
Qed.

End DeletedCode.

Lemma deleted_code_not_found_witness :
  redeemResponse 50 " save20" "X" (snd (deleteAdminRedeemCode "id-2" shop))
  = Rejected NotFound.
Proof.
  apply (deleted_code_not_found (JS:=ascii_strings) "id-2" shop spent1 50
           " save20" "X" (proj1 Map_ok_shop)); try reflexivity.
  intros k' r' Hin Hcode. simpl in Hin.
  destruct Hin as [H|[H|[H|[]]]]; inversion H; subst; try reflexivity;
    discriminate.
Defined.

(** ** The update route *)

(** Updating an id that is not stored answers "not found" and writes
    nothing.  Updating a stored id leaves the order of the keys and every
    other record as they were, and with the empty body it leaves the whole
    store as it was. *)
Theorem update_route k b s :
  Map_ok s ->
  (JsMap.get k s = None -> putAdminRedeemCode k b s = (CodeNotFound, s)) /\
  (forall r, JsMap.get k s = Some r ->
     (exists r', putAdminRedeemCode k b s = (Updated r', JsMap.set k r' s)) /\
     JsMap.keys (snd (putAdminRedeemCode k b s)) = JsMap.keys s /\
     (forall k', k' <> k ->
        JsMap.get k' (snd (putAdminRedeemCode k b s)) = JsMap.get k' s) /\
     putAdminRedeemCode k empty_update s = (Updated r, s)).
Proof.
  intros [Hnd Hid]. unfold putAdminRedeemCode, updateRedeemCode. split.
  - intros E. now rewrite E.
  - intros r E. rewrite E. simpl. repeat split.
    + eexists. reflexivity.
    + eapply keys_set_present; eauto.
    + intros k' Hne. now apply get_set_other.
    + pose proof (Hid _ _ (get_In _ _ _ E)) as Hk.
      assert (Er : {| id := k; code := code r; type := type r;
                      value := value r; productId := productId r;
                      isMasterCode := isMasterCode r; isActive := isActive r;
                      usageLimit := usageLimit r; usageCount := usageCount r;
                      expiresAt := expiresAt r; createdBy := createdBy r;
                      createdAt := createdAt r |} = r)
        by (rewrite <- Hk; now destruct r).
      rewrite Er. now rewrite set_get_same.
Qed.

Lemma update_route_witness :
  putAdminRedeemCode "id-0" counter_body shop = (CodeNotFound, shop) /\
  JsMap.keys (snd (putAdminRedeemCode "id-2" (limit_body 9) shop))
    = JsMap.keys shop /\
  putAdminRedeemCode "id-2" empty_update shop = (Updated spent1, shop).
Proof.
  split; [|split].
  - apply (proj1 (update_route "id-0" counter_body shop Map_ok_shop)).
    reflexivity.
  - apply (proj2 (update_route "id-2" (limit_body 9) shop Map_ok_shop) spent1).
    reflexivity.
  - apply (proj2 (update_route "id-2" (limit_body 9) shop Map_ok_shop) spent1).
    reflexivity.
Defined.

(** ** The counter never goes down *)

Section Monotone.

Context {JS : JsStrings}.

(** Under a creation with a new id, an update without [usageCount], a
    deletion or a redemption, the counter of a code that stays in the store
    does not decrease. *)
Theorem usageCount_monotone q s k r r' :
  Map_ok s -> never_lowers q s ->
  JsMap.get k s = Some r -> JsMap.get k (step q s) = Some r' ->
  usageCount r <= usageCount r'.
Proof.
  intros Hok Hq Hg Hg'. destruct q as [a u t0 b|k0 b|k0|now b]; simpl in *.
  - assert (Hne : k <> u).
    { intros E. subst. apply Hq. apply get_In in Hg. eapply In_keys; eauto. }
    unfold postAdminRedeemCode in Hg'.
    destruct (or_null a) as [a'|]; [|simpl in Hg'; rewrite Hg in Hg'; inversion Hg'; lia].
    destruct (insertRedeemCodeSchema_parse b a');
      simpl in Hg'; [rewrite get_set_other in Hg' by exact Hne|];
      rewrite Hg in Hg'; inversion Hg'; lia.
  - unfold putAdminRedeemCode, updateRedeemCode in Hg'.
    destruct (JsMap.get k0 s) as [r0|] eqn:E0; simpl in Hg';
      [|rewrite Hg in Hg'; inversion Hg'; lia].
    destruct (String.eqb_spec k k0) as [E|E].
    + subst k0. rewrite get_set_same in Hg'. inversion Hg'; subst r'. simpl.
      rewrite Hq. simpl. rewrite Hg in E0. inversion E0. lia.
    + rewrite get_set_other in Hg' by exact E.
      rewrite Hg in Hg'. inversion Hg'. lia.
  - assert (E : snd (deleteAdminRedeemCode k0 s) = JsMap.remove k0 s).
    { unfold deleteAdminRedeemCode, deleteRedeemCode, JsMap.delete.
      now destruct (JsMap.has k0 s). }
    rewrite E in Hg'. destruct (String.eqb_spec k k0) as [E'|E'].
    + subst k0. rewrite get_remove_same in Hg' by apply Hok. discriminate.
    + rewrite get_remove_other in Hg' by exact E'.
      rewrite Hg in Hg'. inversion Hg'. lia.
  - destruct (postRedeem_store now b s)
      as [[_ E]|(c & p & r0 & _ & _ & Hf & _ & E)]; rewrite E in Hg'.
    + rewrite Hg in Hg'. inversion Hg'. lia.
    + simpl in Hg'. unfold incrementRedeemCodeUsage in Hg'.
      pose proof (byCode_get _ _ _ Hok Hf) as Hg0. rewrite Hg0 in Hg'.
      destruct (String.eqb_spec k (id r0)) as [E'|E'].
      * subst k. rewrite get_set_same in Hg'. inversion Hg'; subst r'.
        rewrite Hg in Hg0. inversion Hg0. simpl. apply js_add_ge. lia.
      * rewrite get_set_other in Hg' by exact E'.
        rewrite Hg in Hg'. inversion Hg'. lia.
Qed.

End Monotone.

Lemma usageCount_monotone_witness : usageCount master1 <= usageCount (with_usageCount master1 2).
Proof.
  apply (usageCount_monotone (JS:=ascii_strings)
           (Redeem 100 (mkRedeemBody (Some "master1") (Some "A")))
           shop "id-1" master1 (with_usageCount master1 2) Map_ok_shop I);
    reflexivity.
Defined.

(** ** What the validation chain turns down *)

Section Validation.

Context {JS : JsStrings}.

(** A body whose code or product id is absent, blank or longer than 100
    characters once trimmed is answered "validation failed" before any
    lookup, and the store is left as it was. *)
Theorem unacceptable_body_rejected now b s :
  unacceptable (body_code b) \/ unacceptable (body_productId b) ->
  postRedeem now b s = (ValidationFailed, s).
Proof.
  assert (Hbad : forall c, all_space c = true \/ (100 < charCount (trim c))%nat ->
                           isLength_1_100 (trim c) = false).
  { intros c [H|H]; unfold isLength_1_100.
    - now rewrite (trim_all_space c H), charCount_empty.
    - apply andb_false_iff. right. apply Nat.leb_gt. exact H. }
  unfold postRedeem, redeemValidation, unacceptable.
  destruct (body_code b) as [c|]; [|reflexivity].
  destruct (body_productId b) as [p|]; [|reflexivity].
  intros [H|H]; rewrite (Hbad _ H); [reflexivity|].
  now rewrite andb_false_r.
Qed.

(** The route never gives the callback's own answer "Code and product ID
    are required": a body that would get it is stopped by the validation
    chain first. *)
Theorem fields_required_unreachable now b s :
  fst (postRedeem now b s) <> FieldsRequired.
Proof.
  destruct (postRedeem_cases now b s) as [E|(c & p & _ & _ & _ & _ & E)];
    rewrite E; [discriminate|].
  unfold redeemOutcome.
  destruct (getRedeemCodeByCode (toUpperCase (trim c)) s) as [r|];
    [|discriminate].
  destruct (first_rejection (Some r) (trim p) now); discriminate.
Qed.

End Validation.

Lemma unacceptable_body_rejected_witness :
  postRedeem 50 (mkRedeemBody (Some "   ") (Some "X")) shop
  = (ValidationFailed, shop).
Proof.
  apply (unacceptable_body_rejected 50 (mkRedeemBody (Some "   ") (Some "X")) shop).
  left. left. reflexivity.
Defined.

(** ** Telling the answers apart *)

(** Different reasons for turning an attempt down come with different
    messages, and only "not found" with the status 404; the status is 200
    exactly for a success. *)
Theorem answers_distinguishable :
  (forall r1 r2, message (Rejected r1) = message (Rejected r2) -> r1 = r2) /\
  (forall r, status (Rejected r) = 404 <-> r = NotFound) /\
  (forall resp, status resp = 200 <-> success resp = true).
Proof.
  split; [|split].
  - intros r1 r2; destruct r1, r2; simpl; intros H;
      first [reflexivity | discriminate H].
  - intros r; destruct r; simpl; split; intros H;
      first [reflexivity | discriminate H].
  - intros [| |r|u f t]; simpl; try destruct r; split; intros H;
      first [reflexivity | discriminate H].
Qed.

(** ** Redeemable codes and the admin listings *)

Section Listings.

Context {JS : JsStrings}.

(** A code that has just been redeemed against a product is one the admin
    sees in the list of master codes or in the list of that product. *)
Theorem redeemed_code_is_listed now c p s r :
  lookup c s = Some r ->
  success (redeemResponse now c p s) = true ->
  In r (getMasterRedeemCodes s) \/ In r (getRedeemCodesByProduct (trim p) s).
Proof.
  intros Hf Hs. unfold redeemResponse in Hs.
  destruct (postRedeem_cases now (mkRedeemBody (Some c) (Some p)) s)
    as [E|(c' & p' & Ec & Ep & _ & _ & E)]; rewrite E in Hs; [discriminate|].
  simpl in Ec, Ep. inversion Ec; inversion Ep; subst c' p'.
  unfold redeemOutcome in Hs. unfold lookup in Hf. rewrite Hf in Hs.
  destruct (first_rejection (Some r) (trim p) now) eqn:Er; [discriminate|].
  apply first_rejection_none in Er. destruct Er as (_ & _ & _ & Hv).
  assert (Hin : In r (JsMap.values s)).
  { destruct (byCode_In _ _ _ Hf) as [_ [k Hin]].
    apply (in_map snd) in Hin. exact Hin. }
  unfold isValidForProduct in Hv. apply orb_true_iff in Hv.
  destruct Hv as [Hm|Hp]; [left|right]; apply filter_In; split; auto.
Qed.

End Listings.

Lemma redeemed_code_is_listed_witness :
  In master1 (getMasterRedeemCodes shop) \/
  In master1 (getRedeemCodesByProduct "A" shop).
Proof.
  apply (redeemed_code_is_listed (JS:=ascii_strings) 100 "master1" "A" shop
           master1); reflexivity.
Defined.

(** * Cart and orders *)

(** ** [Map]s of any type of values *)

Section MapOfFacts.

Context {V : Type}.
Implicit Types (m : MapOf V) (k : string) (v : V).

Lemma mget_mset_same k v m : mget k (mset k v m) = Some v.
Proof.
  induction m as [|[k' v'] m IH]; simpl.
  - now rewrite String.eqb_refl.
  - destruct (String.eqb k' k) eqn:E; simpl.
    + now rewrite String.eqb_refl.
    + now rewrite E.
Qed.

Lemma mget_mset_other k k' v m : k' <> k -> mget k' (mset k v m) = mget k' m.
Proof.
  intros Hne. induction m as [|[k0 v0] m IH]; simpl.
  - destruct (String.eqb_spec k k'); congruence.
  - destruct (String.eqb_spec k0 k); simpl.
    + subst k0. destruct (String.eqb_spec k k'); congruence.
    + now rewrite IH.
Qed.

Lemma mget_In k v m : mget k m = Some v -> In (k, v) m.
Proof.
  induction m as [|[k' v'] m IH]; simpl; [discriminate|].
  destruct (String.eqb_spec k' k); intros H.
  - left. congruence.
  - right. auto.
Qed.

Lemma In_mkeys k v m : In (k, v) m -> In k (mkeys m).
Proof. intros H. apply (in_map fst) in H. exact H. Qed.

Lemma In_mget k v m : NoDup (mkeys m) -> In (k, v) m -> mget k m = Some v.
Proof.
  induction m as [|[k' v'] m IH]; simpl; [tauto|].
  intros Hnd [H|H].
  - inversion H; subst. now rewrite String.eqb_refl.
  - inversion Hnd as [|? ? Hnotin Hnd']; subst.
    destruct (String.eqb_spec k' k).
    + subst. exfalso. apply Hnotin. eapply In_mkeys; eauto.
    + auto.
Qed.

Lemma mget_None k m : mget k m = None <-> ~ In k (mkeys m).
Proof.
  induction m as [|[k0 v0] m IH]; simpl.
  - tauto.
  - destruct (String.eqb_spec k0 k); [|tauto].
    split; [discriminate | intros H; exfalso; apply H; now left].
Qed.

Lemma mset_same k v m : mget k m = Some v -> mset k v m = m.
Proof.
  induction m as [|[k0 v0] m IH]; simpl; [discriminate|].
  destruct (String.eqb_spec k0 k).
  - intros E. inversion E. now subst.
  - intros E. now rewrite IH.
Qed.


Lemma In_mset k v m x : In x (mset k v m) -> x = (k, v) \/ In x m.
Proof.
  induction m as [|[k0 v0] m IH]; simpl.
  - intros [H|[]]. now left.
  - destruct (String.eqb k0 k); simpl; intuition auto.
Qed.

Lemma mset_In k v m : In (k, v) (mset k v m).
Proof. apply mget_In, mget_mset_same. Qed.

Lemma In_mkeys_mset k v m x : In x (mkeys (mset k v m)) -> x = k \/ In x (mkeys m).
Proof.
  induction m as [|[k0 v0] m IH]; simpl.
  - intros [H|[]]. now left.
  - destruct (String.eqb k0 k); simpl; intuition auto.
Qed.

Lemma NoDup_mkeys_mset k v m : NoDup (mkeys m) -> NoDup (mkeys (mset k v m)).
Proof.
  induction m as [|[k0 v0] m IH]; simpl; intros Hnd.
  - constructor; [intros [] | constructor].
  - inversion Hnd as [|? ? Hnotin Hnd']; subst.
    destruct (String.eqb_spec k0 k); simpl.
    + subst. now constructor.
    + constructor; auto.
      intros Hin. apply In_mkeys_mset in Hin. destruct Hin; congruence.
Qed.

Lemma mhas_mget k m :
  mhas k m = match mget k m with Some _ => true | None => false end.
Proof.
  induction m as [|[k0 v0] m IH]; simpl; [reflexivity|].
  destruct (String.eqb k0 k); simpl; auto.
Qed.

(** On a [Map], deleting a key keeps exactly the entries under the other
    keys. *)
Lemma mremove_filter k m :
  NoDup (mkeys m) ->
  mremove k m = filter (fun e => negb (String.eqb (fst e) k)) m.
Proof.
  induction m as [|[k0 v0] m IH]; simpl; [reflexivity|].
  intros Hnd. inversion Hnd as [|? ? Hnotin Hnd']; subst.
  destruct (String.eqb_spec k0 k); simpl.
  - subst. symmetry. apply forallb_filter_id. apply forallb_forall.
    intros [k1 v1] Hin. simpl. apply negb_true_iff, String.eqb_neq.
    intros E. subst. apply Hnotin. eapply In_mkeys; eauto.
  - now rewrite IH.
Qed.

Lemma NoDup_mkeys_filter (f : string * V -> bool) m :
  NoDup (mkeys m) -> NoDup (mkeys (filter f m)).
Proof.
  induction m as [|e m IH]; simpl; intros Hnd; [constructor|].
  inversion Hnd as [|? ? Hnotin Hnd']; subst.
  destruct (f e); simpl; auto.
  constructor; auto. intros Hin. apply Hnotin.
  apply in_map_iff in Hin. destruct Hin as [x [E Hin]].
  apply filter_In in Hin. destruct Hin as [Hin _].
  rewrite <- E. now apply in_map.
Qed.

Lemma mkeys_mutate_first (f : V -> bool) (g : V -> V) m :
  mkeys (mutate_first f g m) = mkeys m.
Proof.
  induction m as [|[k v] m IH]; simpl; [reflexivity|].
  destruct (f v); simpl; congruence.
Qed.

Lemma In_mutate_first (f : V -> bool) (g : V -> V) m k v :
  In (k, v) (mutate_first f g m) ->
  In (k, v) m \/ exists v0, In (k, v0) m /\ f v0 = true /\ v = g v0.
Proof.
  induction m as [|[k0 v0] m IH]; simpl; [tauto|].
  destruct (f v0) eqn:E; simpl.
  - intros [H|H]; [|auto]. inversion H; subst. right. exists v0. auto.
  - intros [H|H]; [auto|]. destruct (IH H) as [H'|(v1 & H1 & H2)]; [auto|].
    right. exists v1. tauto.
Qed.

Lemma find_mutate_first_same (f : V -> bool) (g : V -> V) m :
  (forall v, f v = true -> f (g v) = true) ->
  find f (mvalues (mutate_first f g m)) = option_map g (find f (mvalues m)).
Proof.
  intros Hg. induction m as [|[k v] m IH]; simpl; [reflexivity|].
  destruct (f v) eqn:E; simpl.
  - now rewrite (Hg v E).
  - now rewrite E.
Qed.

Lemma find_mutate_first_other (f h : V -> bool) (g : V -> V) m :
  (forall v, h (g v) = h v) -> (forall v, f v = true -> h v = false) ->
  find h (mvalues (mutate_first f g m)) = find h (mvalues m).
Proof.
  intros Hg Hfh. induction m as [|[k v] m IH]; simpl; [reflexivity|].
  destruct (f v) eqn:E; simpl.
  - now rewrite Hg, (Hfh v E).
  - now rewrite IH.
Qed.


End MapOfFacts.

(** ** The cart methods of [MemStorage] *)

Section CartStorage.

Import Cart.
Implicit Types (cart : MapOf CartItem) (item : CartItem).

Lemma same_line_iff sid pid item :
  same_line sid pid item = true <-> sessionId item = sid /\ productId item = pid.
Proof.
  unfold same_line. rewrite andb_true_iff, !String.eqb_eq. tauto.
Qed.

Lemma same_line_with_quantity sid pid item q :
  same_line sid pid (with_quantity item q) = same_line sid pid item.
Proof. reflexivity. Qed.

Lemma same_line_other sid pid s' p' item :
  (s', p') <> (sid, pid) ->
  same_line sid pid item = true -> same_line s' p' item = false.
Proof.
  intros Hne H. apply same_line_iff in H. destruct H as [<- <-].
  destruct (same_line s' p' item) eqn:E; [|reflexivity].
  apply same_line_iff in E. destruct E as [<- <-]. congruence.
Qed.

Lemma Cart_ok_nil : Cart_ok [].
Proof.
  split; [constructor | split]; [intros ? ? [] | intros ? ? ? ? []].
Qed.

(** Entries that are kept, possibly with another quantity, still form a
    well-formed cart. *)
Lemma Cart_ok_sub cart cart' :
  Cart_ok cart -> NoDup (mkeys cart') ->
  (forall k item, In (k, item) cart' ->
     exists item0, In (k, item0) cart /\ id item = id item0 /\
       sessionId item = sessionId item0 /\ productId item = productId item0) ->
  Cart_ok cart'.
Proof.
  intros (Hnd & Hid & Hu) Hnd' Hsub. split; [exact Hnd'|split].
  - intros k item Hin. destruct (Hsub _ _ Hin) as (i0 & Hin0 & E & _).
    rewrite E. eauto.
  - intros k1 i1 k2 i2 H1 H2 Es Ep.
    destruct (Hsub _ _ H1) as (j1 & Hj1 & _ & Es1 & Ep1).
    destruct (Hsub _ _ H2) as (j2 & Hj2 & _ & Es2 & Ep2).
    apply (Hu k1 j1 k2 j2); congruence.
Qed.

Lemma Cart_ok_mutate cart f q :
  Cart_ok cart ->
  Cart_ok (mutate_first f (fun it => with_quantity it (q it)) cart).
Proof.
  intros Hok. apply (Cart_ok_sub cart); [exact Hok | |].
  - rewrite mkeys_mutate_first. apply Hok.
  - intros k item Hin. apply In_mutate_first in Hin.
    destruct Hin as [Hin|(v0 & Hin & _ & ->)]; [eauto|].
    exists v0. auto.
Qed.

Lemma Cart_ok_filter cart (f : string * CartItem -> bool) :
  Cart_ok cart -> Cart_ok (filter f cart).
Proof.
  intros Hok. apply (Cart_ok_sub cart); [exact Hok | |].
  - apply NoDup_mkeys_filter, Hok.
  - intros k item Hin. apply filter_In in Hin. destruct Hin as [Hin _]. eauto.
Qed.

Lemma find_line_In sid pid cart item :
  find (same_line sid pid) (mvalues cart) = Some item ->
  same_line sid pid item = true /\ exists k, In (k, item) cart.
Proof.
  intros H. apply find_some in H. destruct H as [Hin Hf]. split; [exact Hf|].
  apply in_map_iff in Hin. destruct Hin as [[k v] [E Hin]].
  simpl in E. subst. eauto.
Qed.

Lemma find_line_None sid pid cart :
  find (same_line sid pid) (mvalues cart) = None ->
  forall k item, In (k, item) cart -> same_line sid pid item = false.
Proof.
  intros H k item Hin.
  apply (find_none _ _ H item). apply (in_map snd) in Hin. exact Hin.
Qed.

Lemma mutate_first_hit sid pid (g : CartItem -> CartItem) cart item :
  find (same_line sid pid) (mvalues cart) = Some item ->
  exists k, In (k, item) cart /\
            In (k, g item) (mutate_first (same_line sid pid) g cart).
Proof.
  induction cart as [|[k v] cart IH]; simpl; [discriminate|].
  destruct (same_line sid pid v) eqn:E.
  - intros H. inversion H; subst. exists k. simpl. auto.
  - intros H. destruct (IH H) as (k' & H1 & H2). exists k'. simpl. auto.
Qed.

(** Filing the changed item under its id puts it where it already lies. *)
Lemma refile_noop sid pid q cart item :
  Cart_ok cart ->
  find (same_line sid pid) (mvalues cart) = Some item ->
  mset (id item) (with_quantity item (q item))
       (mutate_first (same_line sid pid) (fun it => with_quantity it (q it)) cart)
  = mutate_first (same_line sid pid) (fun it => with_quantity it (q it)) cart.
Proof.
  intros Hok Hf. apply mset_same.
  destruct (mutate_first_hit sid pid (fun it => with_quantity it (q it))
              cart item Hf) as (k & Hin & Hin').
  destruct Hok as (Hnd & Hid & _).
  rewrite (Hid _ _ Hin). apply In_mget; [|exact Hin'].
  rewrite mkeys_mutate_first. exact Hnd.
Qed.

Lemma addToCart_hit uuid now ins cart item :
  Cart_ok cart ->
  find (same_line (ins_sessionId ins) (ins_productId ins)) (mvalues cart)
    = Some item ->
  addToCart uuid now ins cart
  = (with_quantity item (js_add (quantity item) (or_one (ins_quantity ins))),
     mutate_first (same_line (ins_sessionId ins) (ins_productId ins))
       (fun it =>
          with_quantity it (js_add (quantity it) (or_one (ins_quantity ins))))
       cart).
Proof.
  intros Hok Hf. unfold addToCart. rewrite Hf. f_equal.
  apply (refile_noop _ _
           (fun it => js_add (quantity it) (or_one (ins_quantity ins))));
    assumption.
Qed.

Lemma updateCartItemQuantity_hit sid pid n cart item :
  Cart_ok cart ->
  find (same_line sid pid) (mvalues cart) = Some item ->
  updateCartItemQuantity sid pid n cart
  = (Some (with_quantity item n),
     mutate_first (same_line sid pid) (fun it => with_quantity it n) cart).
Proof.
  intros Hok Hf. unfold updateCartItemQuantity. rewrite Hf. f_equal.
  apply (refile_noop _ _ (fun _ => n)); assumption.
Qed.

Lemma Cart_ok_addToCart uuid now ins cart :
  Cart_ok cart -> Cart_ok (snd (addToCart uuid now ins cart)).
Proof.
  intros Hok.
  destruct (find (same_line (ins_sessionId ins) (ins_productId ins))
              (mvalues cart)) as [item|] eqn:Hf.
  - rewrite (addToCart_hit _ _ _ _ _ Hok Hf). simpl.
    apply (Cart_ok_mutate cart _
             (fun it => js_add (quantity it) (or_one (ins_quantity ins))) Hok).
  - unfold addToCart. rewrite Hf. simpl.
    pose proof (find_line_None _ _ _ Hf) as Hnone.
    destruct Hok as (Hnd & Hid & Hu). split; [|split].
    + now apply NoDup_mkeys_mset.
    + intros k item Hin. apply In_mset in Hin.
      destruct Hin as [E|Hin]; [inversion E; reflexivity | eauto].
    + intros k1 i1 k2 i2 H1 H2 Es Ep.
      apply In_mset in H1. apply In_mset in H2.
      destruct H1 as [E1|H1], H2 as [E2|H2].
      * congruence.
      * inversion E1; subst. simpl in *.
        pose proof (Hnone _ _ H2) as Hc.
        assert (same_line (ins_sessionId ins) (ins_productId ins) i2 = true)
          by (apply same_line_iff; split; congruence).
        congruence.
      * inversion E2; subst. simpl in *.
        pose proof (Hnone _ _ H1) as Hc.
        assert (same_line (ins_sessionId ins) (ins_productId ins) i1 = true)
          by (apply same_line_iff; split; congruence).
        congruence.
      * eauto.
Qed.

Lemma Cart_ok_update sid pid n cart :
  Cart_ok cart -> Cart_ok (snd (updateCartItemQuantity sid pid n cart)).
Proof.
  intros Hok.
  destruct (find (same_line sid pid) (mvalues cart)) as [item|] eqn:Hf.
  - rewrite (updateCartItemQuantity_hit _ _ _ _ _ Hok Hf). simpl.
    apply (Cart_ok_mutate cart _ (fun _ => n) Hok).
  - unfold updateCartItemQuantity. now rewrite Hf.
Qed.

Lemma Cart_ok_remove sid pid cart :
  Cart_ok cart -> Cart_ok (snd (removeFromCart sid pid cart)).
Proof.
  intros Hok. unfold removeFromCart.
  destruct (find (fun entry => same_line sid pid (snd entry)) cart);
    simpl; [|exact Hok].
  rewrite mremove_filter by apply Hok. now apply Cart_ok_filter.
Qed.

Lemma fold_remove_cons (e : string * CartItem) (l : list (string * CartItem)) :
  forall cart,
  (forall x, In x l -> fst x <> fst e) ->
  fold_left (fun m entry => mremove (fst entry) m) l (e :: cart)
  = e :: fold_left (fun m entry => mremove (fst entry) m) l cart.
Proof.
  induction l as [|x l IH]; intros cart H; simpl; [reflexivity|].
  destruct e as [k v]. simpl in *.
  destruct (String.eqb_spec k (fst x)) as [E|E].
  - exfalso. apply (H x); auto.
  - apply IH. intros y Hy. apply H. now right.
Qed.

(** On a [Map], clearing a session keeps exactly the entries of the other
    sessions, in their order. *)
Lemma clearCart_filter sid cart :
  NoDup (mkeys cart) ->
  snd (clearCart sid cart)
  = filter (fun e => negb (String.eqb (sessionId (snd e)) sid)) cart.
Proof.
  unfold clearCart. simpl.
  induction cart as [|[k v] cart IH]; simpl; [reflexivity|].
  intros Hnd. inversion Hnd as [|? ? Hnotin Hnd']; subst.
  destruct (String.eqb (sessionId v) sid); simpl.
  - rewrite String.eqb_refl. auto.
  - rewrite fold_remove_cons.
    + now rewrite IH.
    + intros x Hx. apply filter_In in Hx. destruct Hx as [Hx _]. simpl.
      intros E. apply Hnotin. rewrite <- E. now apply in_map.
Qed.

Lemma Cart_ok_clear sid cart : Cart_ok cart -> Cart_ok (snd (clearCart sid cart)).
Proof.
  intros Hok. rewrite clearCart_filter by apply Hok. now apply Cart_ok_filter.
Qed.

End CartStorage.

(** ** The cart routes *)

Section CartRoutes.

Import Cart.
Context {Product : Type} {JS : JsStrings}.
Implicit Types (cart : MapOf CartItem) (item : CartItem)
  (products : MapOf Product).

Lemma find_none_all {A : Type} (f : A -> bool) (l : list A) :
  (forall x, In x l -> f x = false) -> find f l = None.
Proof.
  induction l as [|x l IH]; simpl; intros H; [reflexivity|].
  rewrite (H x (or_introl eq_refl)). apply IH. intros y Hy. apply H. now right.
Qed.

Lemma find_filter_other (keep : string * CartItem -> bool)
    (h : CartItem -> bool) cart :
  (forall e, In e cart -> keep e = false -> h (snd e) = false) ->
  find h (mvalues (filter keep cart)) = find h (mvalues cart).
Proof.
  induction cart as [|e cart IH]; simpl; intros H; [reflexivity|].
  assert (IH' : find h (mvalues (filter keep cart)) = find h (mvalues cart))
    by (apply IH; intros; apply H; auto).
  destruct (keep e) eqn:E; simpl.
  - now rewrite IH'.
  - now rewrite (H e (or_introl eq_refl) E).
Qed.

Lemma find_entry_value (f : CartItem -> bool) cart :
  find f (mvalues cart) = option_map snd (find (fun e => f (snd e)) cart).
Proof.
  induction cart as [|[k v] cart IH]; simpl; [reflexivity|].
  now destruct (f v).
Qed.


Lemma postCart_valid uuid now sid pid q cart :
  isLength_1_100 (trim sid) = true -> isLength_1_100 (trim pid) = true ->
  1 <= q <= 999 ->
  @postCart Product _ uuid now (mkCartBody (Some sid) (Some pid) (Some q)) cart
  = (Added (fst (addToCart uuid now
                   (mkInsertCartItem (trim sid) (trim pid) (Some q)) cart)),
     snd (addToCart uuid now
            (mkInsertCartItem (trim sid) (trim pid) (Some q)) cart)).
Proof.
  intros Hs Hp [H1 H2]. unfold postCart, cartValidation. simpl.
  rewrite Hs, Hp. apply Z.leb_le in H1. apply Z.leb_le in H2.
  rewrite H1, H2. simpl.
  now destruct (addToCart uuid now
                  (mkInsertCartItem (trim sid) (trim pid) (Some q)) cart).
Qed.


(** Changing a quantity: a quantity below 1 is turned down and a line
    that does not exist is reported missing, both without a write;
    otherwise the line gets exactly the quantity sent and no other line
    changes. *)
Theorem cart_patch sid pid n cart :
  Cart_ok cart ->
  (n < 1 -> @patchCart Product sid pid (Some n) cart = (Invalid, cart)) /\
  (1 <= n ->
   match find (same_line sid pid) (mvalues cart) with
   | None => @patchCart Product sid pid (Some n) cart = (Missing, cart)
   | Some item =>
       fst (@patchCart Product sid pid (Some n) cart)
         = Changed (with_quantity item n) /\
       Cart_ok (snd (@patchCart Product sid pid (Some n) cart)) /\
       forall s' p',
         line_quantity s' p' (snd (@patchCart Product sid pid (Some n) cart))
         = if String.eqb s' sid && String.eqb p' pid then n
           else line_quantity s' p' cart
   end).
Proof.
  intros Hok. unfold patchCart. split.
  - intros H. apply Z.ltb_lt in H. now rewrite H.
  - intros H. apply Z.ltb_ge in H. rewrite H.
    destruct (find (same_line sid pid) (mvalues cart)) as [item|] eqn:Hf.
    + rewrite (updateCartItemQuantity_hit _ _ _ _ _ Hok Hf). cbn [fst snd].
      split; [reflexivity|]. split.
      * apply (Cart_ok_mutate cart _ (fun _ => n) Hok).
      * intros s' p'. unfold line_quantity.
        destruct (String.eqb_spec s' sid) as [Es|Es];
          destruct (String.eqb_spec p' pid) as [Ep|Ep]; cbn [andb];
          try (rewrite find_mutate_first_other;
               [ reflexivity | reflexivity
               | intros v Hv; eapply same_line_other; [|exact Hv]; congruence ]).
        subst. rewrite find_mutate_first_same by auto. now rewrite Hf.
    + unfold updateCartItemQuantity. now rewrite Hf.
Qed.

(** Removing a line: a line that does not exist is reported missing and
    nothing is written; otherwise the session no longer holds the product
    and no other line changes. *)
Theorem cart_delete_item sid pid cart :
  Cart_ok cart ->
  match find (same_line sid pid) (mvalues cart) with
  | None => @deleteCartItem Product sid pid cart = (Missing, cart)
  | Some _ =>
      fst (@deleteCartItem Product sid pid cart) = NoContent /\
      Cart_ok (snd (@deleteCartItem Product sid pid cart)) /\
      forall s' p',
        line_quantity s' p' (snd (@deleteCartItem Product sid pid cart))
        = if String.eqb s' sid && String.eqb p' pid then 0
          else line_quantity s' p' cart
  end.
Proof.
  intros Hok. pose proof (Cart_ok_remove sid pid cart Hok) as Hok'.
  unfold deleteCartItem. unfold removeFromCart in *.
  rewrite find_entry_value.
  destruct (find (fun e => same_line sid pid (snd e)) cart) as [[k item]|] eqn:Hf;
    cbn [option_map fst snd] in *; [|reflexivity].
  split; [reflexivity|]. split; [exact Hok'|].
  apply find_some in Hf. destruct Hf as [Hin Hl]. simpl in Hl.
  destruct Hok as (Hnd & Hid & Hu).
  rewrite mremove_filter by exact Hnd.
  intros s' p'. unfold line_quantity.
  assert (Hdrop : forall e, In e cart ->
            negb (String.eqb (fst e) k) = false -> e = (k, item)).
  { intros [k' v'] Hin' E. simpl in E.
    apply negb_false_iff, String.eqb_eq in E. subst k'.
    f_equal. pose proof (In_mget _ _ _ Hnd Hin) as G1.
    pose proof (In_mget _ _ _ Hnd Hin') as G2. congruence. }
  destruct (String.eqb_spec s' sid) as [Es|Es];
    destruct (String.eqb_spec p' pid) as [Ep|Ep]; cbn [andb];
    try (rewrite find_filter_other;
         [ reflexivity
         | intros e He Hk; rewrite (Hdrop e He Hk); simpl;
           eapply same_line_other; [|exact Hl]; congruence ]).
  subst. rewrite find_none_all; [reflexivity|].
  intros x Hx. apply in_map_iff in Hx. destruct Hx as [[k' v'] [E Hx]].
  simpl in E. subst v'. apply filter_In in Hx. destruct Hx as [Hx Hk].
  simpl in Hk. destruct (same_line sid pid x) eqn:Hlx; [|reflexivity].
  apply same_line_iff in Hl. apply same_line_iff in Hlx.
  assert (k' = k) by (apply (Hu k' x k item); intuition congruence).
  subst. now rewrite String.eqb_refl in Hk.
Qed.

(** Clearing a cart always answers 204; afterwards the session holds
    nothing, its cart reads as the empty list, and the lines of every other
    session are as before. *)
Theorem cart_clear sid products cart :
  NoDup (mkeys cart) ->
  fst (@deleteCart Product sid cart) = NoContent /\
  getCart sid products (snd (@deleteCart Product sid cart)) = Lines [] /\
  forall s' p',
    line_quantity s' p' (snd (@deleteCart Product sid cart))
    = if String.eqb s' sid then 0 else line_quantity s' p' cart.
Proof.
  intros Hnd. unfold deleteCart. cbn [fst snd].
  rewrite clearCart_filter by exact Hnd. split; [reflexivity|]. split.
  - unfold getCart, getCartItems.
    replace (filter (fun item => String.eqb (sessionId item) sid)
               (mvalues (filter (fun e => negb (String.eqb (sessionId (snd e)) sid))
                           cart)))
      with (@nil CartItem); [reflexivity|].
    symmetry. induction cart as [|[k v] cart IH]; simpl; [reflexivity|].
    inversion Hnd; subst.
    destruct (String.eqb (sessionId v) sid) eqn:E; simpl; [auto|].
    rewrite E. auto.
  - intros s' p'. unfold line_quantity.
    destruct (String.eqb_spec s' sid) as [Es|Es].
    + subst. rewrite find_none_all; [reflexivity|].
      intros x Hx. apply in_map_iff in Hx. destruct Hx as [[k' v'] [E Hx]].
      simpl in E. subst v'. apply filter_In in Hx. destruct Hx as [_ Hk].
      simpl in Hk. apply negb_true_iff in Hk.
      unfold same_line. now rewrite Hk.
    + rewrite find_filter_other; [reflexivity|].
      intros e _ Hk. apply negb_false_iff, String.eqb_eq in Hk.
      unfold same_line. rewrite Hk.
      rewrite (proj2 (String.eqb_neq sid s')) by congruence. reflexivity.
Qed.

Lemma attach_products_missing products items item :
  In item items -> mget (productId item) products = None ->
  attach_products products items = None.
Proof.
  induction items as [|x items IH]; simpl; [tauto|].
  intros [E|Hin] Hm.
  - subst. now rewrite Hm.
  - destruct (mget (productId x) products); [|reflexivity].
    now rewrite (IH Hin Hm).
Qed.

Lemma getCart_dangling products cart k item :
  In (k, item) cart -> mget (productId item) products = None ->
  getCart (sessionId item) products cart = Failed.
Proof.
  intros Hin Hm. unfold getCart, getCartItems.
  rewrite (attach_products_missing products _ item); [reflexivity| |exact Hm].
  apply filter_In. split; [|apply String.eqb_refl].
  apply (in_map snd) in Hin. exact Hin.
Qed.

(** Reading a cart fails as soon as one of its lines names a product that
    is not in the catalogue.  Adding to the cart does not look the product
    up, so adding a product id that is not in the catalogue is accepted and
    makes the session's cart unreadable; so does deleting a product that
    some session has in its cart. *)
Theorem dangling_product_breaks_cart products cart :
  (forall uuid now sid pid q,
     isLength_1_100 (trim sid) = true -> isLength_1_100 (trim pid) = true ->
     1 <= q <= 999 ->
     mget (trim pid) products = None ->
     (exists item,
        fst (@postCart Product _ uuid now
               (mkCartBody (Some sid) (Some pid) (Some q)) cart) = Added item) /\
     getCart (trim sid) products
       (snd (@postCart Product _ uuid now
               (mkCartBody (Some sid) (Some pid) (Some q)) cart)) = Failed) /\
  (forall k item,
     NoDup (mkeys products) -> In (k, item) cart ->
     getCart (sessionId item)
       (snd (deleteProduct (productId item) products)) cart = Failed).
Proof.
  split.
  - intros uuid now sid pid q Hs Hp Hq Hm.
    rewrite (postCart_valid _ _ _ _ _ _ Hs Hp Hq). cbn [fst snd].
    split; [eexists; reflexivity|].
    unfold addToCart. cbn [ins_sessionId ins_productId ins_quantity].
    destruct (find (same_line (trim sid) (trim pid)) (mvalues cart))
      as [item|] eqn:Hf; cbn [snd].
    + destruct (find_line_In _ _ _ _ Hf) as [Hl _].
      apply same_line_iff in Hl. destruct Hl as [Hl1 Hl2].
      set (item' := with_quantity item (js_add (quantity item) (or_one (Some q)))).
      replace (trim sid) with (sessionId item') by exact Hl1.
      apply (getCart_dangling products _ (id item) item');
        [apply mset_In | simpl; now rewrite Hl2].
    + set (item' := mkCartItem uuid (trim sid) (trim pid) (or_one (Some q))
                      (Some now)).
      change (trim sid) with (sessionId item') at 1.
      apply (getCart_dangling products _ uuid item'); [apply mset_In | exact Hm].
  - intros k item Hnd Hin.
    apply (getCart_dangling _ cart k item Hin).
    unfold deleteProduct, mdelete. cbn [snd].
    destruct (mget (productId item) (mremove (productId item) products))
      eqn:E; [|reflexivity].
    apply mget_In in E. rewrite mremove_filter in E by exact Hnd.
    apply filter_In in E. destruct E as [_ E]. simpl in E.
    now rewrite String.eqb_refl in E.
Qed.

(** Placing an order with a complete body stores it under the generated
    id with the status sent, or "pending" when none is sent, and empties
    the cart of the order's session only; a body that lacks a required
    property is turned down and nothing is written. *)
Theorem order_clears_cart uuid now b cart orders :
  NoDup (mkeys cart) ->
  match insertOrderSchema_parse b with
  | None =>
      @postOrder Product uuid now b cart orders = (Invalid, (cart, orders))
  | Some ins =>
      exists order,
        fst (@postOrder Product uuid now b cart orders) = Ordered order /\
        @getOrderRoute Product uuid
          (snd (snd (@postOrder Product uuid now b cart orders))) = Found order /\
        order_sessionId order = io_sessionId ins /\
        status order = (match or_null (io_status ins) with
                        | Some st => st
                        | None => "pending"
                        end) /\
        fst (snd (@postOrder Product uuid now b cart orders))
        = filter (fun e => negb (String.eqb (sessionId (snd e))
                                            (io_sessionId ins))) cart
  end.
Proof.
  intros Hnd. unfold postOrder.
  destruct (insertOrderSchema_parse b) as [ins|]; [|reflexivity].
  cbn [createOrder fst snd]. eexists. split; [reflexivity|].
  split; [|split; [reflexivity|split; [reflexivity|]]].
  - unfold getOrderRoute, getOrder. now rewrite mget_mset_same.
  - now apply clearCart_filter.
Qed.

Lemma Cart_ok_step q cart : Cart_ok cart -> Cart_ok (Cart.step q cart).
Proof.
  intros Hok. destruct q as [uuid now b|sid pid n|sid pid|sid|b]; simpl.
  - unfold postCart.
    destruct (cartValidation b) as [b'|]; [|exact Hok].
    destruct (insertCartItemSchema_parse b') as [ins|]; [|exact Hok].
    pose proof (Cart_ok_addToCart uuid now ins cart Hok) as H.
    now destruct (addToCart uuid now ins cart).
  - unfold patchCart. destruct n as [n|]; [|exact Hok].
    destruct (n <? 1); [exact Hok|].
    pose proof (Cart_ok_update sid pid n cart Hok) as H.
    destruct (updateCartItemQuantity sid pid n cart) as [[it|] c]; exact H.
  - unfold deleteCartItem.
    pose proof (Cart_ok_remove sid pid cart Hok) as H.
    destruct (removeFromCart sid pid cart) as [[|] c]; exact H.
  - now apply Cart_ok_clear.
  - unfold postOrder.
    destruct (insertOrderSchema_parse b) as [ins|]; [|exact Hok].
    simpl. now apply Cart_ok_clear.
Qed.

End CartRoutes.

Section CartRuns.

Context {JS : JsStrings}.

(** Whatever requests were served, the cart is a [Map] of items filed
    under their own id in which no session has two entries for the same
    product. *)
Theorem cart_lines_unique qs : Cart.Cart_ok (Cart.run qs).
Proof.
  unfold Cart.run. generalize (@nil (string * Cart.CartItem)) Cart_ok_nil.
  induction qs as [|q qs IH]; simpl; intros cart H; [exact H|].
  apply IH. now apply Cart_ok_step.
Qed.

End CartRuns.

Lemma Cart_ok_cart1 : Cart.Cart_ok cart1.
Proof.
  split; [|split].
  - repeat constructor; simpl; intuition discriminate.
  - intros k item H. simpl in H.
    repeat (destruct H as [H|H]; [inversion H; reflexivity|]). contradiction.
  - intros k1 i1 k2 i2 H1 H2. simpl in H1, H2.
    destruct H1 as [H1|[H1|[H1|[]]]]; destruct H2 as [H2|[H2|[H2|[]]]];
      inversion H1; inversion H2; subst; simpl; intros; congruence.
Qed.


Lemma cart_patch_witness :
  @Cart.patchCart string "s1" "3" (Some 0) cart1 = (Cart.Invalid, cart1) /\
  Cart.line_quantity "s1" "3"
    (snd (@Cart.patchCart string "s1" "3" (Some 9) cart1)) = 9.
Proof.
  split.
  - apply (proj1 (@cart_patch string "s1" "3" 0 cart1 Cart_ok_cart1)).
    reflexivity.
  - apply (proj2 (proj2 (proj2 (@cart_patch string "s1" "3" 9 cart1
                                  Cart_ok_cart1)
                           (Zle_bool_imp_le 1 9 eq_refl))) "s1" "3").
Defined.

Lemma cart_delete_item_witness :
  @Cart.deleteCartItem string "s1" "2" cart1 = (Cart.Missing, cart1) /\
  Cart.line_quantity "s1" "3"
    (snd (@Cart.deleteCartItem string "s1" "3" cart1)) = 0.
Proof.
  split.
  - apply (@cart_delete_item string "s1" "2" cart1 Cart_ok_cart1).
  - apply (proj2 (proj2 (@cart_delete_item string "s1" "3" cart1
                           Cart_ok_cart1)) "s1" "3").
Defined.

Lemma cart_clear_witness :
  Cart.getCart "s1" catalogue (snd (@Cart.deleteCart string "s1" cart1))
  = Cart.Lines [] /\
  Cart.line_quantity "s2" "1" (snd (@Cart.deleteCart string "s1" cart1)) = 1.
Proof.
  split.
  - apply (proj1 (proj2 (@cart_clear string "s1" catalogue cart1
                           (proj1 Cart_ok_cart1)))).
  - apply (proj2 (proj2 (@cart_clear string "s1" catalogue cart1
                           (proj1 Cart_ok_cart1))) "s2" "1").
Defined.

Lemma dangling_product_breaks_cart_witness :
  Cart.getCart "s2" catalogue
    (snd (@Cart.postCart string _ "c-9" 40
            (Cart.mkCartBody (Some "s2") (Some "no-such-product") (Some 1))
            cart1)) = Cart.Failed /\
  Cart.getCart "s1" (snd (Cart.deleteProduct "3" catalogue)) cart1 = Cart.Failed.
Proof.
  split.
  - apply (proj1 (@dangling_product_breaks_cart string ascii_strings
                    catalogue cart1)
             "c-9" 40 "s2" "no-such-product" 1 eq_refl eq_refl
             (conj (Zle_bool_imp_le 1 1 eq_refl) (Zle_bool_imp_le 1 999 eq_refl))
             eq_refl).
  - apply (proj2 (@dangling_product_breaks_cart string ascii_strings
                    catalogue cart1)
             "c-3" (Cart.mkCartItem "c-3" "s1" "3" 5 (Some 30))).
    + repeat constructor; simpl; intuition discriminate.
    + simpl. auto.
Defined.

Lemma order_clears_cart_witness :
  exists order,
    fst (@Cart.postOrder string "o-1" 50 order_body cart1 []) = Cart.Ordered order /\
    @Cart.getOrderRoute string "o-1"
      (snd (snd (@Cart.postOrder string "o-1" 50 order_body cart1 [])))
      = Cart.Found order /\
    Cart.order_sessionId order = "s1" /\
    Cart.status order = "pending" /\
    fst (snd (@Cart.postOrder string "o-1" 50 order_body cart1 []))
    = [("c-2", Cart.mkCartItem "c-2" "s2" "1" 1 (Some 20))].
Proof.
  apply (@order_clears_cart string "o-1" 50 order_body cart1 []
           (proj1 Cart_ok_cart1)).
Defined.

(** * Admin login, lock-out and the admin gate *)

Section AdminLogin.

Import Auth.
Context {JS : JsStrings}.
Variable compare : string -> string -> bool.
Implicit Types (m : MapOf Admin) (admin : Admin) (st : State).

Lemma isLength_3_nonempty s : isLength 3 50 s = true -> or_null (Some s) = Some s.
Proof.
  destruct s; [|reflexivity]. unfold isLength.
  rewrite charCount_empty. discriminate.
Qed.

Lemma isLength_6_nonempty s : isLength 6 100 s = true -> or_null (Some s) = Some s.
Proof.
  destruct s; [|reflexivity]. unfold isLength.
  rewrite charCount_empty. discriminate.
Qed.

Lemma postLogin_valid now ip u p st :
  isLength 3 50 (trim u) = true -> isLength 6 100 p = true ->
  postLogin compare now ip (mkLoginBody (Some u) (Some p)) st
  = match getAdminByUsername (trim u) (admins st) with
    | None =>
        (InvalidCredentials,
         mkState (admins st) (count_attempt ip now (loginAttempts st)), None)
    | Some admin =>
        if is_locked admin now then (AccountLocked, st, None)
        else if negb (isActive admin) then (AccountInactive, st, None)
        else if negb (compare p (passwordHash admin)) then
          (InvalidCredentials,
           mkState
             (updateAdminLoginAttempts (id admin) (failedLoginAttempts admin + 1)
                (if 5 <=? failedLoginAttempts admin + 1
                 then Some (now + minutes 30) else None) now (admins st))
             (count_attempt ip now (loginAttempts st)),
           None)
        else
          (LoggedIn (id admin) (username admin) (email admin) (role admin),
           mkState (updateAdminLastLogin (id admin) now (admins st))
                   (snd (mdelete (address ip) (loginAttempts st))),
           Some (mkSession (Some (id admin)) (Some (username admin))
                   (Some (role admin)) (Some true)))
    end.
Proof.
  intros Hu Hp. unfold postLogin, loginValidation. simpl.
  rewrite Hu, Hp. simpl. unfold loginHandler. simpl lb_username. simpl lb_password.
  now rewrite (isLength_3_nonempty _ Hu), (isLength_6_nonempty _ Hp).
Qed.

Lemma byUsername_In u m admin :
  getAdminByUsername u m = Some admin ->
  username admin = u /\ exists k, In (k, admin) m.
Proof.
  unfold getAdminByUsername, mvalues. intros H.
  apply find_some in H. destruct H as [Hin Hc].
  apply String.eqb_eq in Hc. split; [exact Hc|].
  apply in_map_iff in Hin. destruct Hin as [[k a] [E Hin]].
  simpl in E. subst. eauto.
Qed.

Lemma byUsername_get u m admin :
  Admins_ok m -> getAdminByUsername u m = Some admin ->
  mget (id admin) m = Some admin.
Proof.
  intros [Hnd Hid] H. apply byUsername_In in H. destruct H as [_ [k Hin]].
  rewrite (Hid _ _ Hin). now apply In_mget.
Qed.

(** Filing an admin again under its own id, with the same user name, does
    not change which admin a lookup by user name finds. *)
Lemma byUsername_set u m admin admin' :
  Admins_ok m -> getAdminByUsername u m = Some admin ->
  username admin' = username admin ->
  getAdminByUsername u (mset (id admin) admin' m) = Some admin'.
Proof.
  unfold getAdminByUsername, mvalues.
  induction m as [|[k v] m IH]; simpl; [discriminate|].
  intros [Hnd Hid] Hfind Hname.
  inversion Hnd as [|? ? Hnotin Hnd']; subst.
  destruct (String.eqb (username v) u) eqn:Ec.
  - inversion Hfind; subst v.
    rewrite (Hid k admin (or_introl eq_refl)), String.eqb_refl. simpl.
    now rewrite Hname, Ec.
  - assert (Hm : Admins_ok m)
      by (split; [exact Hnd' | intros; apply Hid; now right]).
    destruct (byUsername_In u m admin Hfind) as [_ [k' Hin]].
    assert (Hk' : id admin = k') by (apply Hid; now right).
    destruct (String.eqb_spec k (id admin)) as [E|E].
    + exfalso. apply Hnotin. rewrite E, Hk'. eapply In_mkeys; eauto.
    + simpl. rewrite Ec. now apply IH.
Qed.

Lemma Admins_ok_set m k admin :
  Admins_ok m -> id admin = k -> Admins_ok (mset k admin m).
Proof.
  intros [Hnd Hid] Hk. split.
  - now apply NoDup_mkeys_mset.
  - intros k' a Hin. apply In_mset in Hin. destruct Hin as [E|Hin].
    + congruence.
    + auto.
Qed.

(** What a wrong password writes. *)
Lemma postLogin_wrong_password now ip u p st admin :
  Admins_ok (admins st) ->
  isLength 3 50 (trim u) = true -> isLength 6 100 p = true ->
  getAdminByUsername (trim u) (admins st) = Some admin ->
  is_locked admin now = false -> isActive admin = true ->
  compare p (passwordHash admin) = false ->
  exists admin' st',
    postLogin compare now ip (mkLoginBody (Some u) (Some p)) st
      = (InvalidCredentials, st', None) /\
    Admins_ok (admins st') /\
    getAdminByUsername (trim u) (admins st') = Some admin' /\
    failedLoginAttempts admin' = failedLoginAttempts admin + 1 /\
    lockedUntil admin' = (if 5 <=? failedLoginAttempts admin + 1
                          then Some (now + minutes 30) else None) /\
    isActive admin' = true /\ passwordHash admin' = passwordHash admin /\
    (forall k, k <> id admin -> mget k (admins st') = mget k (admins st)) /\
    loginAttempts st' = count_attempt ip now (loginAttempts st).
Proof.
  intros Hok Hu Hp Hf Hl Ha Hc.
  rewrite (postLogin_valid _ _ _ _ _ Hu Hp), Hf, Hl, Ha, Hc. simpl negb. cbv iota.
  unfold updateAdminLoginAttempts. rewrite (byUsername_get _ _ _ Hok Hf).
  eexists. eexists. split; [reflexivity|]. cbn [admins loginAttempts].
  split; [now apply Admins_ok_set|].
  split; [now apply byUsername_set|].
  repeat split; auto.
  intros k Hk. now apply mget_mset_other.
Qed.

(** A wrong password for an active account that is not locked: the answer
    is "invalid credentials", the account's count of failures goes up by
    one, and the account is locked for 30 minutes exactly when the count
    has reached 5 -- so once it has, and until a successful login resets
    it, every further wrong password locks the account again.  No other
    account changes, and the attempt is counted for the address. *)
Theorem wrong_password_counts now ip u p st admin :
  Admins_ok (admins st) ->
  isLength 3 50 (trim u) = true -> isLength 6 100 p = true ->
  getAdminByUsername (trim u) (admins st) = Some admin ->
  is_locked admin now = false -> isActive admin = true ->
  compare p (passwordHash admin) = false ->
  exists admin' st',
    postLogin compare now ip (mkLoginBody (Some u) (Some p)) st
      = (InvalidCredentials, st', None) /\
    Admins_ok (admins st') /\
    getAdminByUsername (trim u) (admins st') = Some admin' /\
    failedLoginAttempts admin' = failedLoginAttempts admin + 1 /\
    lockedUntil admin' = (if 5 <=? failedLoginAttempts admin + 1
                          then Some (now + minutes 30) else None) /\
    isActive admin' = true /\ passwordHash admin' = passwordHash admin /\
    (forall k, k <> id admin -> mget k (admins st') = mget k (admins st)) /\
    loginAttempts st' = count_attempt ip now (loginAttempts st).
Proof. apply postLogin_wrong_password. Qed.

(** What a locked account answers. *)
Lemma postLogin_locked now ip u p st admin :
  isLength 3 50 (trim u) = true -> isLength 6 100 p = true ->
  getAdminByUsername (trim u) (admins st) = Some admin ->
  is_locked admin now = true ->
  postLogin compare now ip (mkLoginBody (Some u) (Some p)) st
  = (AccountLocked, st, None).
Proof.
  intros Hu Hp Hf Hl. now rewrite (postLogin_valid _ _ _ _ _ Hu Hp), Hf, Hl.
Qed.

(** While an account is locked, a login under its name is answered 423
    whatever the password, the right one included, and nothing is written
    and no session is set. *)
Theorem locked_account_refuses now ip u p st admin :
  isLength 3 50 (trim u) = true -> isLength 6 100 p = true ->
  getAdminByUsername (trim u) (admins st) = Some admin ->
  is_locked admin now = true ->
  postLogin compare now ip (mkLoginBody (Some u) (Some p)) st
  = (AccountLocked, st, None).
Proof. apply postLogin_locked. Qed.

(** A login under a name that no admin bears is answered like a wrong
    password; the admins are left as they were and the attempt is counted
    for the address, from 0 in a window of 15 minutes when the address had
    no entry. *)
Theorem unknown_admin_counts now ip u p st :
  isLength 3 50 (trim u) = true -> isLength 6 100 p = true ->
  getAdminByUsername (trim u) (admins st) = None ->
  exists st',
    postLogin compare now ip (mkLoginBody (Some u) (Some p)) st
      = (InvalidCredentials, st', None) /\
    admins st' = admins st /\
    mget (address ip) (loginAttempts st')
    = Some (match mget (address ip) (loginAttempts st) with
            | Some a => mkAttempts (count a + 1) (resetTime a)
            | None => mkAttempts 1 (now + minutes 15)
            end) /\
    forall k, k <> address ip ->
      mget k (loginAttempts st') = mget k (loginAttempts st).
Proof.
  intros Hu Hp Hf. rewrite (postLogin_valid _ _ _ _ _ Hu Hp), Hf.
  eexists. split; [reflexivity|]. cbn [admins loginAttempts].
  split; [reflexivity|]. unfold count_attempt. split.
  - rewrite mget_mset_same.
    now destruct (mget (address ip) (loginAttempts st)).
  - intros k Hk. now apply mget_mset_other.
Qed.

(** A successful login: the count of failures is reset to 0, the lock is
    cleared, the instant of the login is recorded, the entry of the address
    is dropped, and the session that is set passes the admin gate at any
    later instant, as long as the account is left as it is. *)
Theorem login_success_resets now ip u p st admin :
  Admins_ok (admins st) -> NoDup (mkeys (loginAttempts st)) ->
  isLength 3 50 (trim u) = true -> isLength 6 100 p = true ->
  getAdminByUsername (trim u) (admins st) = Some admin ->
  is_locked admin now = false -> isActive admin = true ->
  compare p (passwordHash admin) = true ->
  id admin <> "" ->
  exists admin' st' session,
    postLogin compare now ip (mkLoginBody (Some u) (Some p)) st
      = (LoggedIn (id admin) (username admin) (email admin) (role admin),
         st', Some session) /\
    getAdminByUsername (trim u) (admins st') = Some admin' /\
    failedLoginAttempts admin' = 0 /\ lockedUntil admin' = None /\
    lastLogin admin' = Some now /\
    mget (address ip) (loginAttempts st') = None /\
    forall now', requireAdmin now' (Some session) (admins st')
                 = (Next, Some session).
Proof.
  intros Hok Hnd Hu Hp Hf Hl Ha Hc Hid.
  rewrite (postLogin_valid _ _ _ _ _ Hu Hp), Hf, Hl, Ha, Hc. simpl negb. cbv iota.
  unfold updateAdminLastLogin. rewrite (byUsername_get _ _ _ Hok Hf).
  eexists. eexists. eexists. split; [reflexivity|]. cbn [admins loginAttempts].
  assert (Hf' : getAdminByUsername (trim u)
                  (mset (id admin)
                     (mkAdmin (id admin) (username admin) (passwordHash admin)
                        (email admin) (role admin) (isActive admin) (Some now)
                        0 None (createdAt admin) (Some now)) (admins st))
                = Some (mkAdmin (id admin) (username admin) (passwordHash admin)
                          (email admin) (role admin) (isActive admin) (Some now)
                          0 None (createdAt admin) (Some now)))
    by (now apply byUsername_set).
  split; [exact Hf'|]. repeat split.
  - unfold mdelete. cbn [snd]. apply mget_None.
    rewrite mremove_filter by exact Hnd. intros Hin.
    apply in_map_iff in Hin. destruct Hin as [[k v] [E Hin]].
    apply filter_In in Hin. destruct Hin as [_ Hk]. simpl in *. subst.
    now rewrite String.eqb_refl in Hk.
  - intros now'. unfold requireAdmin. cbn [s_isAuthenticated s_adminId s_username].
    unfold truthy.
    assert (E1 : or_null (Some (id admin)) = Some (id admin)).
    { unfold or_null. apply String.eqb_neq in Hid. now rewrite Hid. }
    destruct (byUsername_In _ _ _ Hf) as [Hname _].
    assert (E2 : or_null (Some (username admin)) = Some (trim u))
      by (rewrite Hname; now apply isLength_3_nonempty).
    rewrite E1, E2. simpl. rewrite Hf'. cbn [isActive]. rewrite Ha.
    reflexivity.
Qed.

(** Locking out: when an account has four or more failures, anyone who
    sends one more wrong password locks it for 30 minutes from that
    instant; until then every login under its name is answered 423, and
    the admin gate turns away and clears every session of that admin. *)
Theorem lockout_blocks_admin now ip u p st admin :
  Admins_ok (admins st) ->
  isLength 3 50 (trim u) = true -> isLength 6 100 p = true ->
  getAdminByUsername (trim u) (admins st) = Some admin ->
  is_locked admin now = false -> isActive admin = true ->
  compare p (passwordHash admin) = false ->
  4 <= failedLoginAttempts admin ->
  exists st',
    postLogin compare now ip (mkLoginBody (Some u) (Some p)) st
      = (InvalidCredentials, st', None) /\
    forall now' ip' p' session,
      now' < now + minutes 30 ->
      isLength 6 100 p' = true ->
      s_isAuthenticated session = Some true ->
      truthy (s_adminId session) = true ->
      s_username session = Some (trim u) ->
      postLogin compare now' ip' (mkLoginBody (Some u) (Some p')) st'
        = (AccountLocked, st', None) /\
      requireAdmin now' (Some session) (admins st')
        = (TemporarilyLocked, Some no_session).
Proof.
  intros Hok Hu Hp Hf Hl Ha Hc H4.
  destruct (postLogin_wrong_password now ip u p st admin Hok Hu Hp Hf Hl Ha Hc)
    as (admin' & st' & E & _ & Hf' & _ & Hlock & Ha' & _).
  exists st'. split; [exact E|].
  intros now' ip' p' session Hnow Hp' Hauth Hid Hname.
  assert (Hl' : is_locked admin' now' = true).
  { unfold is_locked. rewrite Hlock.
    destruct (Z.leb_spec 5 (failedLoginAttempts admin + 1)); [|lia].
    now apply Z.ltb_lt. }
  split.
  - now apply (postLogin_locked now' ip' u p' st' admin').
  - unfold requireAdmin.
    rewrite Hauth, Hid, Hname, (isLength_3_nonempty _ Hu), Hf', Ha', Hl'.
    reflexivity.
Qed.

Lemma loginAll_cons now ip b rest st :
  loginAll compare ((now, ip, b) :: rest) st
  = (fst (fst (postLogin compare now ip b st))
       :: fst (loginAll compare rest (snd (fst (postLogin compare now ip b st)))),
     snd (loginAll compare rest (snd (fst (postLogin compare now ip b st))))).
Proof.
  simpl. destruct (postLogin compare now ip b st) as [[r st1] o]. simpl.
  now destruct (loginAll compare rest st1).
Qed.

Lemma wrong_attempts_below u reqs : forall st admin,
  Admins_ok (admins st) -> isLength 3 50 u = true ->
  getAdminByUsername u (admins st) = Some admin ->
  lockedUntil admin = None -> isActive admin = true ->
  Forall (wrong_attempt compare u (passwordHash admin)) reqs ->
  failedLoginAttempts admin + Z.of_nat (List.length reqs) < 5 ->
  exists admin',
    fst (loginAll compare reqs st)
      = repeat InvalidCredentials (List.length reqs) /\
    Admins_ok (admins (snd (loginAll compare reqs st))) /\
    getAdminByUsername u (admins (snd (loginAll compare reqs st))) = Some admin' /\
    failedLoginAttempts admin'
      = failedLoginAttempts admin + Z.of_nat (List.length reqs) /\
    lockedUntil admin' = None /\ isActive admin' = true /\
    passwordHash admin' = passwordHash admin.
Proof.
  induction reqs as [|[[now ip] b] rest IH]; intros st admin Hok Hu Hf Hl Ha Hall Hn.
  - exists admin. simpl. rewrite Z.add_0_r.
    split; [reflexivity|]. split; [exact Hok|]. split; [exact Hf|]. auto.
  - inversion Hall as [|? ? Hw Hall']; subst.
    destruct Hw as (u' & p & Eb & Etrim & Hp & Hc). simpl in Eb. subst b u.
    assert (Hunl : is_locked admin now = false)
      by (unfold is_locked; now rewrite Hl).
    destruct (postLogin_wrong_password now ip u' p st admin Hok Hu Hp Hf Hunl Ha Hc)
      as (a1 & st1 & E & Hok1 & Hf1 & Hn1 & Hl1 & Ha1 & Hh1 & _).
    rewrite loginAll_cons, E. cbn [fst snd].
    cbn [List.length] in Hn.
    assert (Hl1' : lockedUntil a1 = None).
    { rewrite Hl1. destruct (Z.leb_spec 5 (failedLoginAttempts admin + 1)); [lia|reflexivity]. }
    rewrite <- Hh1 in Hall'.
    destruct (IH st1 a1 Hok1 Hu Hf1 Hl1' Ha1 Hall') as (a2 & R & Hok2 & Hf2 & Hn2 & Hl2 & Ha2 & Hh2);
      [lia|].
    exists a2. cbn [List.length repeat]. rewrite R.
    split; [reflexivity|]. split; [exact Hok2|]. split; [exact Hf2|].
    split; [lia|]. split; [exact Hl2|]. split; [exact Ha2|]. congruence.
Qed.

Lemma loginAll_app reqs1 reqs2 st :
  loginAll compare (reqs1 ++ reqs2) st
  = ((fst (loginAll compare reqs1 st)
      ++ fst (loginAll compare reqs2 (snd (loginAll compare reqs1 st))))%list,
     snd (loginAll compare reqs2 (snd (loginAll compare reqs1 st)))).
Proof.
  revert st. induction reqs1 as [|[[now ip] b] rest IH]; intros st.
  - simpl. now destruct (loginAll compare reqs2 st).
  - cbn [app]. rewrite !loginAll_cons, IH. reflexivity.
Qed.

(** Wrong passwords sent one after the other for an active account without
    a lock are each answered "invalid credentials"; the one that brings the
    count of failures to 5 locks the account for 30 minutes from its
    instant, and until then every login under the name is answered 423,
    whatever the password. *)
Theorem five_failures_lock u reqs now ip b st admin :
  Admins_ok (admins st) -> isLength 3 50 u = true ->
  getAdminByUsername u (admins st) = Some admin ->
  lockedUntil admin = None -> isActive admin = true ->
  Forall (wrong_attempt compare u (passwordHash admin))
         (reqs ++ [(now, ip, b)])%list ->
  failedLoginAttempts admin + Z.of_nat (List.length reqs) = 4 ->
  fst (loginAll compare (reqs ++ [(now, ip, b)])%list st)
    = repeat InvalidCredentials (List.length reqs + 1) /\
  exists admin',
    getAdminByUsername u
      (admins (snd (loginAll compare (reqs ++ [(now, ip, b)])%list st)))
      = Some admin' /\
    failedLoginAttempts admin' = 5 /\
    lockedUntil admin' = Some (now + minutes 30) /\
    forall now' ip' u' p',
      now' < now + minutes 30 -> trim u' = u -> isLength 6 100 p' = true ->
      postLogin compare now' ip' (mkLoginBody (Some u') (Some p'))
        (snd (loginAll compare (reqs ++ [(now, ip, b)])%list st))
      = (AccountLocked,
         snd (loginAll compare (reqs ++ [(now, ip, b)])%list st), None).
Proof.
  intros Hok Hu Hf Hl Ha Hall Hn.
  apply Forall_app in Hall. destruct Hall as [Hall Hlast].
  inversion Hlast as [|? ? Hw _]; subst.
  destruct (wrong_attempts_below u reqs st admin Hok Hu Hf Hl Ha Hall)
    as (a1 & R & Hok1 & Hf1 & Hn1 & Hl1 & Ha1 & Hh1); [lia|].
  destruct Hw as (u' & p & Eb & Etrim & Hp & Hc). simpl in Eb. subst b u.
  rewrite <- Hh1 in Hc.
  assert (Hunl : is_locked a1 now = false)
    by (unfold is_locked; now rewrite Hl1).
  destruct (postLogin_wrong_password now ip u' p _ a1 Hok1 Hu Hp Hf1 Hunl Ha1 Hc)
    as (a2 & st2 & E & Hok2 & Hf2 & Hn2 & Hl2 & Ha2 & Hh2 & _).
  rewrite loginAll_app. cbn [fst snd]. rewrite R.
  rewrite loginAll_cons, E. cbn [fst snd loginAll].
  split.
  - rewrite repeat_app. reflexivity.
  - assert (Hfive : failedLoginAttempts a1 + 1 = 5) by lia.
    rewrite Hfive in *. cbn in Hl2.
    exists a2. repeat split; auto.
    intros now' ip' u'' p' Hnow Etrim' Hp'.
    apply (postLogin_locked now' ip' u'' p' st2 a2);
      [now rewrite Etrim' | exact Hp' | now rewrite Etrim' |].
    unfold is_locked. rewrite Hl2. now apply Z.ltb_lt.
Qed.

(** The admin gate lets a request through exactly when its session is
    authenticated, carries an admin id and a user name, and the admin of
    that name is active and not locked; it then leaves the session as it
    is, and it clears the session whenever it turns a request away for any
    reason but a missing authentication. *)
Theorem gate_passes_iff now session m :
  (fst (requireAdmin now session m) = Next <->
   exists s u admin,
     session = Some s /\ s_isAuthenticated s = Some true /\
     truthy (s_adminId s) = true /\ or_null (s_username s) = Some u /\
     getAdminByUsername u m = Some admin /\
     isActive admin = true /\ is_locked admin now = false) /\
  (fst (requireAdmin now session m) = Next ->
   snd (requireAdmin now session m) = session) /\
  (fst (requireAdmin now session m) <> Next ->
   fst (requireAdmin now session m) <> AuthenticationRequired ->
   snd (requireAdmin now session m) = Some no_session).
Proof.
  unfold requireAdmin.
  destruct session as [s|];
    [destruct (s_isAuthenticated s) as [[|]|] eqn:E1;
     destruct (truthy (s_adminId s)) eqn:E2; cbn [negb orb];
     [destruct (or_null (s_username s)) as [u|] eqn:E3;
      [destruct (getAdminByUsername u m) as [admin|] eqn:E4;
       [destruct (isActive admin) eqn:E5; cbn [negb];
        [destruct (is_locked admin now) eqn:E6|]|]|]| | | | |]|];
    cbn [fst snd];
    (split; [split|split]);
    try (intros H; discriminate H);
    try (intros _; reflexivity);
    try (intros (s0 & u0 & a & E & Ea & Et & Eu & Eg & Eact & El);
         first [discriminate E | inversion E; subst s0; congruence]);
    try (intros H1 H2; first [reflexivity | exfalso; apply H2; reflexivity]).
  - intros _. exists s, u, admin. auto 10.
  - intros H. exfalso. now apply H.
Qed.

End AdminLogin.

(** ** Sample runs *)

Lemma Admins_ok_office : Auth.Admins_ok (Auth.admins office).
Proof.
  split.
  - repeat constructor. intros [].
  - intros k a [H|[]]. now inversion H.
Qed.

Lemma Admins_ok_office0 : Auth.Admins_ok (Auth.admins office0).
Proof.
  split.
  - repeat constructor. intros [].
  - intros k a [H|[]]. now inversion H.
Qed.

Lemma wrong_password_counts_witness :
  exists admin',
    Auth.getAdminByUsername "admin"
      (Auth.admins
         (snd (fst (Auth.postLogin toy_compare 1000 (Some "1.2.3.4")
                      (Auth.mkLoginBody (Some " admin ") (Some "letmein"))
                      office)))) = Some admin' /\
    Auth.failedLoginAttempts admin' = 5 /\
    Auth.lockedUntil admin' = Some (1000 + Auth.minutes 30).
Proof.
  destruct (wrong_password_counts (JS:=ascii_strings) toy_compare 1000 (Some "1.2.3.4") " admin "
              "letmein" office admin1 Admins_ok_office
              eq_refl eq_refl eq_refl eq_refl eq_refl eq_refl)
    as (a & st' & E & _ & Hf & Hn & Hl & _).
  exists a. rewrite E. cbn [fst snd]. auto.
Defined.

Lemma locked_account_refuses_witness :
  Auth.postLogin toy_compare 50 None
    (Auth.mkLoginBody (Some "admin") (Some "admin123"))
    (Auth.mkState
       [("admin-1",
         Auth.mkAdmin "admin-1" "admin" "hash-of-admin123" "admin@neomarket.com"
           "admin" true None 5 (Some 100) (Some 0) (Some 0))] [])
  = (Auth.AccountLocked,
     Auth.mkState
       [("admin-1",
         Auth.mkAdmin "admin-1" "admin" "hash-of-admin123" "admin@neomarket.com"
           "admin" true None 5 (Some 100) (Some 0) (Some 0))] [],
     None).
Proof.
  apply (locked_account_refuses (JS:=ascii_strings) toy_compare 50 None
           "admin" "admin123" _
           (Auth.mkAdmin "admin-1" "admin" "hash-of-admin123"
              "admin@neomarket.com" "admin" true None 5 (Some 100) (Some 0)
              (Some 0)));
    reflexivity.
Defined.

Lemma unknown_admin_counts_witness :
  exists st',
    Auth.postLogin toy_compare 1000 None
      (Auth.mkLoginBody (Some "nobody") (Some "whatever")) office
      = (Auth.InvalidCredentials, st', None) /\
    Auth.admins st' = Auth.admins office /\
    mget "unknown" (Auth.loginAttempts st')
      = Some (Auth.mkAttempts 1 (1000 + Auth.minutes 15)).
Proof.
  destruct (unknown_admin_counts (JS:=ascii_strings) toy_compare 1000 None "nobody" "whatever"
              office eq_refl eq_refl eq_refl) as (st' & E & Ha & Hg & _).
  exists st'. auto.
Defined.

Lemma login_success_resets_witness :
  exists admin',
    Auth.getAdminByUsername "admin"
      (Auth.admins
         (snd (fst (Auth.postLogin toy_compare 1000 (Some "1.2.3.4")
                      (Auth.mkLoginBody (Some "admin") (Some "admin123"))
                      office)))) = Some admin' /\
    Auth.failedLoginAttempts admin' = 0 /\
    Auth.lastLogin admin' = Some 1000.
Proof.
  destruct (login_success_resets (JS:=ascii_strings) toy_compare 1000 (Some "1.2.3.4") "admin"
              "admin123" office admin1 Admins_ok_office (NoDup_nil _)
              eq_refl eq_refl eq_refl eq_refl eq_refl eq_refl
              ltac:(discriminate))
    as (a & st' & session & E & Hf & Hn & _ & Hl & _).
  exists a. rewrite E. cbn [fst snd]. auto.
Defined.

Lemma lockout_blocks_admin_witness :
  exists st',
    Auth.postLogin toy_compare 1000 (Some "6.6.6.6")
      (Auth.mkLoginBody (Some "admin") (Some "letmein")) office
      = (Auth.InvalidCredentials, st', None) /\
    Auth.postLogin toy_compare 2000 (Some "1.2.3.4")
      (Auth.mkLoginBody (Some "admin") (Some "admin123")) st'
      = (Auth.AccountLocked, st', None) /\
    Auth.requireAdmin 2000 (Some admin1_session) (Auth.admins st')
      = (Auth.TemporarilyLocked, Some Auth.no_session).
Proof.
  destruct (lockout_blocks_admin (JS:=ascii_strings) toy_compare 1000 (Some "6.6.6.6") "admin"
              "letmein" office admin1 Admins_ok_office
              eq_refl eq_refl eq_refl eq_refl eq_refl eq_refl
              (Zle_bool_imp_le 4 4 eq_refl)) as (st' & E & H).
  exists st'. split; [exact E|].
  apply (H 2000 (Some "1.2.3.4") "admin123" admin1_session); reflexivity.
Defined.

Lemma five_failures_lock_witness :
  fst (loginAll toy_compare (four_guesses ++ [guess 5 "wrong-5"])%list office0)
    = repeat Auth.InvalidCredentials 5 /\
  Auth.postLogin toy_compare 6 (Some "1.2.3.4")
    (Auth.mkLoginBody (Some "admin") (Some "admin123"))
    (snd (loginAll toy_compare (four_guesses ++ [guess 5 "wrong-5"])%list office0))
  = (Auth.AccountLocked,
     snd (loginAll toy_compare (four_guesses ++ [guess 5 "wrong-5"])%list office0),
     None).
Proof.
  assert (Hall : Forall (wrong_attempt toy_compare "admin"
                           (Auth.passwordHash admin0))
                        (four_guesses ++ [guess 5 "wrong-5"])%list).
  { repeat constructor;
      (eexists; eexists; split; [reflexivity|]; repeat split). }
  destruct (five_failures_lock (JS:=ascii_strings) toy_compare "admin" four_guesses 5
              (Some "6.6.6.6")
              (Auth.mkLoginBody (Some "admin") (Some "wrong-5")) office0 admin0
              Admins_ok_office0 eq_refl eq_refl eq_refl eq_refl Hall eq_refl)
    as (R & a & _ & _ & _ & H).
  split; [exact R|].
  apply (H 6 (Some "1.2.3.4") "admin" "admin123"); reflexivity.
Defined.

Lemma gate_passes_iff_witness :
  fst (Auth.requireAdmin 50 (Some admin1_session) (Auth.admins office))
  = Auth.Next.
Proof.
  apply (proj1 (gate_passes_iff 50 (Some admin1_session) (Auth.admins office))).
  exists admin1_session, "admin", admin1. repeat split.
Defined.

Lemma fields_required_unreachable_witness :
  fst (postRedeem 50 (mkRedeemBody (Some "") None) shop) <> FieldsRequired.
Proof.
  apply (fields_required_unreachable 50 (mkRedeemBody (Some "") None) shop).
Defined.

Lemma answers_distinguishable_witness :
  Expired = Expired /\ status (Rejected Inactive) <> 404.
Proof.
  split.
  - apply (proj1 answers_distinguishable Expired Expired). reflexivity.
  - intros H.
    pose proof (proj1 (proj1 (proj2 answers_distinguishable) Inactive) H).
    discriminate.
Defined.

Lemma cart_lines_unique_witness :
  Cart.Cart_ok
    (Cart.run [Cart.PostCart "c-1" 10
                 (Cart.mkCartBody (Some "s1") (Some "1") (Some 2));
               Cart.PostCart "c-2" 20
                 (Cart.mkCartBody (Some "s1") (Some "1") (Some 3))]).
Proof.
  apply (cart_lines_unique
           [Cart.PostCart "c-1" 10
              (Cart.mkCartBody (Some "s1") (Some "1") (Some 2));
            Cart.PostCart "c-2" 20
              (Cart.mkCartBody (Some "s1") (Some "1") (Some 3))]).
Defined.
